(** * NarrativeVerse: the NPC dialogue engine of [src/engine.py]

    A shallow embedding of the class [Engine] and the properties of its
    relationship ledger, sentiment scorer, style selector, template
    renderer and response-option generator.

    Conventions of the embedding.
    - A Python [str] is a [string]; its characters are the code points
      below 256, and [lower], [split] and [strip] treat them as CPython
      does on that range.
    - A Python [int] is a [Z].  The only float of the engine is [trust]:
      it starts at 50 and moves by [sentiment_score * 0.5], a multiple of
      one half of magnitude at most 5, so every value it takes is a dyadic
      rational that binary64 holds exactly; it is a [Q] here.
    - A raised exception is a value of [result]; the engine's mutable
      attributes and the random source are threaded through the monad [M].
    - [self.relationship_states] is a [gmap string RelState]. *)

From Stdlib Require Import ZArith QArith Qminmax Lia Lqa Bool Ascii String List Permutation.
From stdpp Require Import base option list gmap strings.

Local Open Scope Z_scope.

(** ** Text primitives *)

Module PyStr.

(** [c.lower()] on one code point. *)
Definition lower_ascii (c : ascii) : ascii :=
  let n := N_of_ascii c in
  if ((65 <=? n) && (n <=? 90))%N then ascii_of_N (n + 32)
  else if ((192 <=? n) && (n <=? 222) && negb (n =? 215))%N then ascii_of_N (n + 32)
  else c.

(** [s.lower()]. *)
Fixpoint lower (s : string) : string :=
  match s with
  | EmptyString => EmptyString
  | String c s' => String (lower_ascii c) (lower s')
  end.

(** [s.startswith(p)]. *)
Fixpoint startswith (p s : string) : bool :=
  match p, s with
  | EmptyString, _ => true
  | String _ _, EmptyString => false
  | String a p', String b s' => Ascii.eqb a b && startswith p' s'
  end.

(** [w in s] on strings: [w] occurs in [s] as a contiguous substring. *)
Fixpoint str_in (w s : string) : bool :=
  startswith w s ||
  match s with
  | EmptyString => false
  | String _ s' => str_in w s'
  end.

(** The characters [str.split()] and [str.strip()] treat as blank. *)
Definition isspace (c : ascii) : bool :=
  let n := N_of_ascii c in
  (((9 <=? n) && (n <=? 13)) || ((28 <=? n) && (n <=? 32))
   || (n =? 133) || (n =? 160))%N.

(** [s.split()]: the maximal runs of non-blank characters, in order.
    [cur] is the run being read, reversed. *)
Fixpoint split_ws_aux (cur : list ascii) (s : string) : list string :=
  match s with
  | EmptyString =>
      match cur with
      | [] => []
      | _ => [string_of_list_ascii (rev cur)]
      end
  | String c s' =>
      if isspace c then
        match cur with
        | [] => split_ws_aux [] s'
        | _ => string_of_list_ascii (rev cur) :: split_ws_aux [] s'
        end
      else split_ws_aux (c :: cur) s'
  end.

Definition split (s : string) : list string := split_ws_aux [] s.

(** [s.split(sep)] for a one-character separator: empty pieces are kept,
    so the result is never empty. *)
Fixpoint split_on_aux (sep : ascii) (cur : list ascii) (s : string) : list string :=
  match s with
  | EmptyString => [string_of_list_ascii (rev cur)]
  | String c s' =>
      if Ascii.eqb c sep then string_of_list_ascii (rev cur) :: split_on_aux sep [] s'
      else split_on_aux sep (c :: cur) s'
  end.

Definition split_on (sep : ascii) (s : string) : list string :=
  split_on_aux sep [] s.

(** [s.lstrip()], [s.rstrip()] and [s.strip()]. *)
Fixpoint lstrip (s : string) : string :=
  match s with
  | EmptyString => EmptyString
  | String c s' => if isspace c then lstrip s' else s
  end.

Fixpoint rstrip (s : string) : string :=
  match s with
  | EmptyString => EmptyString
  | String c s' =>
      match rstrip s' with
      | EmptyString => if isspace c then EmptyString else String c EmptyString
      | r => String c r
      end
  end.

Definition strip (s : string) : string := rstrip (lstrip s).

(** [s.replace(old, new)] for a non-empty [old] (every call site passes a
    literal placeholder): the leftmost occurrences, not overlapping.
    [skip] counts the characters of a matched [old] still to be dropped. *)
Fixpoint replace_aux (old new : string) (skip : nat) (s : string) : string :=
  match s with
  | EmptyString => EmptyString
  | String c s' =>
      match skip with
      | S k => replace_aux old new k s'
      | O =>
          if startswith old s
          then new +:+ replace_aux old new (String.length old - 1) s'
          else String c (replace_aux old new 0 s')
      end
  end.

Definition replace (old new s : string) : string := replace_aux old new 0 s.

End PyStr.

(** ** Exceptions *)

Inductive exn : Type :=
| IndexError
| KeyError
| TypeError
| AttributeError
| ValueError.

Inductive result (A : Type) : Type :=
| Ok (a : A)
| Raise (e : exn).

Arguments Ok {A} a.
Arguments Raise {A} e.

(** ** Sentiment scorer: [_analyze_player_action] *)

Definition positive_keywords : list string :=
  ["help"; "save"; "protect"; "agree"; "gift"; "compliment"]%string.

Definition negative_keywords : list string :=
  ["attack"; "steal"; "lie"; "threaten"; "insult"; "refuse"]%string.

(** One [for word in keywords: if word in action_lower: score += step]
    loop, from the running [score]. *)
Fixpoint keyword_loop (step : Z) (keywords : list string) (action_lower : string)
    (score : Z) : Z :=
  match keywords with
  | [] => score
  | word :: rest =>
      keyword_loop step rest action_lower
        (if PyStr.str_in word action_lower then score + step else score)
  end.

Definition _analyze_player_action (action : string) : Z :=
  let score := 0 in
  let action_lower := PyStr.lower action in
  let score := keyword_loop 2 positive_keywords action_lower score in
  let score := keyword_loop (-2) negative_keywords action_lower score in
  Z.max (-10) (Z.min 10 score).

(** How many keywords of a list occur in a text, ignoring case. *)
Definition keyword_hits (keywords : list string) (text : string) : Z :=
  Z.of_nat (List.length (List.filter (fun w => PyStr.str_in w (PyStr.lower text)) keywords)).

(** ** Data model *)

(** An NPC record of [npc_profiles["npcs"]].  [name], [class] and
    [alignment] are read by subscription and so are always present; the
    other three are read with [.get(key, default)] and an empty default, so
    an absent key is the empty value.  The trait weights are JSON numbers. *)
Record Profile : Type := {
  name : string;
  class : string;
  alignment : string;
  personality_traits : list (string * Q);
  backstory : string;
  interaction_style : list (string * string)
}.

(** One element of [interactions]. *)
Record Interaction : Type := {
  action : string;
  interaction_context : string;
  sentiment : Z;
  timestamp : string
}.

(** One value of [self.relationship_states]. *)
Record RelState : Type := {
  affinity : Z;
  trust : Q;
  interactions : list Interaction
}.

(** The random source: a tape of draws and the position of the next one. *)
Record Rng : Type := {
  tape : nat -> N;
  cursor : nat
}.

(** The attributes of an [Engine] object that its methods read or write
    ([player_history] and [conversation_context] are set to [{}] by
    [__init__] and never touched again), and the random source. *)
Record Engine : Type := {
  npc_profiles : list Profile;
  relationship_states : gmap string RelState;
  random_source : Rng
}.

Definition set_relationship_states (rs : gmap string RelState) (e : Engine) : Engine :=
  {| npc_profiles := npc_profiles e;
     relationship_states := rs;
     random_source := random_source e |}.

Definition set_random_source (g : Rng) (e : Engine) : Engine :=
  {| npc_profiles := npc_profiles e;
     relationship_states := relationship_states e;
     random_source := g |}.

(** The optional [player_history] dictionary. *)
Definition History : Type := option (list (string * string)).

(** [bool(player_history)]: [None] and [{}] are false. *)
Definition truthy (h : History) : bool :=
  match h with
  | Some (_ :: _) => true
  | _ => false
  end.

(** ** The engine monad: state, then a value or an exception *)

Definition M (A : Type) : Type := Engine -> result A * Engine.

Definition ret {A} (a : A) : M A := fun e => (Ok a, e).

Definition raise {A} (x : exn) : M A := fun e => (Raise x, e).

Definition bind {A B} (m : M A) (k : A -> M B) : M B :=
  fun e =>
    match m e with
    | (Ok a, e') => k a e'
    | (Raise x, e') => (Raise x, e')
    end.

Definition lift {A} (r : result A) : M A := fun e => (r, e).

Declare Scope engine_scope.
Delimit Scope engine_scope with engine.
Notation "'let*' x := m 'in' k" := (bind m (fun x => k))
  (at level 10, x name, m at level 100, k at level 200) : engine_scope.

Local Open Scope engine_scope.

(** One draw from the tape. *)
Definition draw : M N :=
  fun e =>
    let g := random_source e in
    (Ok (tape g (cursor g)),
     set_random_source {| tape := tape g; cursor := S (cursor g) |} e).

(** [random.choice(seq)]. *)
Definition choice {A} (seq : list A) : M A :=
  match seq with
  | [] => raise IndexError
  | x :: _ =>
      let* r := draw in
      ret (nth (N.to_nat (r mod N.of_nat (length seq))) seq x)
  end.

(** [random.random() < c] for the float [c = threshold / 2^53]:
    [random.random()] is a uniform multiple of [2^-53] below 1. *)
Definition random_lt (threshold : N) : M bool :=
  let* r := draw in
  ret (r mod 2 ^ 53 <? threshold)%N.

(** The float literals 0.7, 0.6 and 0.4, as multiples of [2^-53]. *)
Definition f0_7 : N := 6305039478318694.
Definition f0_6 : N := 5404319552844595.
Definition f0_4 : N := 3602879701896397.

(** One round of [random.sample]'s loop over its pool: pick position [j],
    then move the last element of the pool into it. *)
Definition sample_step {A} (pool : list A) (j : nat) : option (A * list A) :=
  match pool !! j, last pool with
  | Some x, Some z => Some (x, removelast (<[j := z]> pool))
  | _, _ => None
  end.

Fixpoint sample_loop {A} (k : nat) (pool : list A) : M (list A) :=
  match k with
  | O => ret []
  | S k' =>
      let* r := draw in
      match sample_step pool (N.to_nat (r mod N.of_nat (length pool))) with
      | Some (x, pool') =>
          let* rest := sample_loop k' pool' in
          ret (x :: rest)
      | None => raise ValueError
      end
  end.

(** [random.sample(population, k)] for a population of at most 21
    elements, where CPython works on a copy of the population as its pool;
    the candidate pool of the engine never has more than four. *)
Definition sample {A} (population : list A) (k : Z) : M (list A) :=
  if (0 <=? k) && (k <=? Z.of_nat (length population))
  then sample_loop (Z.to_nat k) population
  else raise ValueError.

(** ** Template catalog: [_initialize_prompt_templates] *)

Record MoodData : Type := {
  word_choices : list string;
  sentence_endings : list string;
  speech_patterns : string
}.

(** A value two levels down in [self.prompt_templates]: a template string
    or, under ["mood_modifiers"], a dictionary of mood data. *)
Inductive Entry : Type :=
| Template (t : string)
| Modifier (m : MoodData).

(** [d.get(k)] on a dictionary literal kept in source order. *)
Fixpoint assoc {V} (k : string) (d : list (string * V)) : option V :=
  match d with
  | [] => None
  | (k', v) :: d' => if String.eqb k k' then Some v else assoc k d'
  end.

Local Open Scope string_scope.
Local Open Scope Z_scope.

Definition prompt_templates : list (string * list (string * Entry)) :=
  [ ("greeting",
      [ ("formal", Template "Greetings, traveler. I am {npc_name}, {npc_title}. {custom_intro}");
        ("friendly", Template "Hello! Great to see you here! I'm {npc_name}. {custom_intro}");
        ("cautious", Template "Hmm... {hesitation} I'm {npc_name}. {custom_intro}");
        ("excited", Template "Wow! A new face! I'm {npc_name}! {custom_intro}") ]);
    ("quest_offer",
      [ ("urgent", Template "I need your help immediately. {quest_description} Time is running out!");
        ("mysterious", Template "I have an... interesting proposal. {quest_description} There's more to this than meets the eye.");
        ("casual", Template "If you have time, could you help me with something? {quest_description} No rush.");
        ("challenging", Template "I'm looking for someone with your skills. {quest_description} Few could manage this.") ]);
    ("response_to_player_choice",
      [ ("approval", Template "Excellent choice! {approval_response}");
        ("disappointment", Template "{disappointment_response} I expected more from you.");
        ("surprise", Template "Interesting... {surprise_response} I didn't expect that.");
        ("neutral", Template "I understand your decision. {neutral_response}") ]);
    ("mood_modifiers",
      [ ("happy", Modifier
          {| word_choices := ["wonderful"; "excellent"; "fantastic"; "amazing"];
             sentence_endings := ["!"; "! That's great!"; "! How delightful!"];
             speech_patterns := "expansive and enthusiastic" |});
        ("sad", Modifier
          {| word_choices := ["unfortunately"; "sadly"; "regrettably"; "with sorrow"];
             sentence_endings := ["..."; ". *sigh*"; ". Such is life..."];
             speech_patterns := "slow and melancholic" |});
        ("angry", Modifier
          {| word_choices := ["irritating"; "absurd"; "unacceptable"; "outrageous"];
             sentence_endings := ["."; ". Understood?"; "!"];
             speech_patterns := "short and intense" |});
        ("curious", Modifier
          {| word_choices := ["interesting"; "fascinating"; "intriguing"; "curious"];
             sentence_endings := ["?"; "... don't you think?"; "... I wonder why."];
             speech_patterns := "questioning and reflective" |}) ]) ].

(** [l.append(x)]. *)
Definition append {A} (l : list A) (x : A) : list A := (l ++ [x])%list.

(** [x in [a, b, ...]] on strings. *)
Definition str_mem (x : string) (l : list string) : bool :=
  existsb (String.eqb x) l.

(** The profile lookup shared by the two query operations:
    [next((npc for npc in npcs if npc["name"] == npc_name), None)]. *)
Definition find_profile (npcs : list Profile) (npc_name : string) : option Profile :=
  List.find (fun npc => String.eqb (name npc) npc_name) npcs.

(** ** Style selector: [_determine_interaction_style] *)

Definition _determine_interaction_style (npc_profile : Profile) (context : string)
    (player_history : History) : result string :=
  if String.eqb context "greeting" then
    match PyStr.split (alignment npc_profile) !! 1%nat with
    | Some w => Ok (if String.eqb w "Good" then "friendly" else "cautious")
    | None => Raise IndexError
    end
  else if String.eqb context "quest_offer" then
    if PyStr.str_in "urgency" (PyStr.lower context) then Ok "urgent"
    else if str_mem (class npc_profile) ["Techno-Mage Scientist"; "Sentient Alien Pet"]
    then Ok "mysterious"
    else Ok "casual"
  else if String.eqb context "response_to_player_choice" then
    if negb (truthy player_history) then Ok "neutral"
    else Ok "approval"
  else Ok "friendly".

(** ** Template renderer *)

Definition fallback_template : string := "Hello, I'm {npc_name}. How can I help?".

Definition _select_template (context interaction_style : string)
    (player_choice : option string) : Entry :=
  match assoc context prompt_templates with
  | Some styles =>
      match assoc interaction_style styles with
      | Some t => t
      | None => Template fallback_template
      end
  | None => Template fallback_template
  end.

(** [max(d.items(), key=lambda x: x[1])] from the first item [best]: a later
    item wins only with a strictly larger value. *)
Fixpoint max_by_value (best : string * Q) (items : list (string * Q)) : string * Q :=
  match items with
  | [] => best
  | x :: rest =>
      max_by_value (if negb (Qle_bool (snd x) (snd best)) then x else best) rest
  end.

Definition moods : list string := ["happy"; "sad"; "angry"; "curious"].

Definition _determine_mood (npc_profile : Profile) (player_history : History)
    (player_choice : option string) : M string :=
  let fallback :=
    let* b := random_lt f0_4 in
    if b then ret "curious" else choice moods in
  match personality_traits npc_profile with
  | first :: others =>
      let max_trait := max_by_value first others in
      if str_mem (fst max_trait) ["optimism"; "enthusiasm"; "curiosity"] then
        let* b := random_lt f0_7 in
        if b then ret "happy" else choice moods
      else if str_mem (fst max_trait) ["wisdom"; "empathy"; "compassion"] then
        let* b := random_lt f0_6 in
        if b then ret "curious" else choice moods
      else if str_mem (fst max_trait) ["determination"; "courage"] then
        choice moods
      else fallback
  | [] => fallback
  end.

(** [self.prompt_templates["mood_modifiers"]]. *)
Definition mood_modifiers : list (string * Entry) :=
  match assoc "mood_modifiers" prompt_templates with
  | Some d => d
  | None => []
  end.

(** The two dynamically typed steps of [_apply_mood_modifiers]: reading
    ['speech_patterns'] and concatenating a string with the template. *)
Definition _apply_mood_modifiers (template : Entry) (mood : string) : result Entry :=
  match assoc mood mood_modifiers with
  | None => Ok template
  | Some mood_data =>
      match mood_data, template with
      | Modifier m, Template t =>
          let mood_prefix := "[" +:+ speech_patterns m +:+ "] " in
          Ok (Template (mood_prefix +:+ t))
      | _, _ => Raise TypeError
      end
  end.

Definition _generate_intro_snippet (npc_profile : Profile) : string :=
  let backstory := backstory npc_profile in
  if negb (String.eqb backstory EmptyString) then
    let sentences := PyStr.split_on "." backstory in
    if (2 <? length sentences)%nat
    then PyStr.strip (nth 1 sentences EmptyString) +:+ "."
    else nth 0 (PyStr.split_on "." backstory) EmptyString +:+ "."
  else "I have a story to tell.".

(** The [replacements] dictionary, in insertion order. *)
Definition replacements (npc_profile : Profile) (hesitation : string)
    : list (string * string) :=
  [ ("{npc_name}", name npc_profile);
    ("{npc_title}", class npc_profile);
    ("{custom_intro}",
      "I am " +:+ alignment npc_profile +:+ " and " +:+ _generate_intro_snippet npc_profile);
    ("{hesitation}", hesitation);
    ("{quest_description}", "[Quest description would be dynamically generated]");
    ("{approval_response}", "This shows your character.");
    ("{disappointment_response}", "This wasn't what I expected.");
    ("{surprise_response}", "You continue to surprise me.");
    ("{neutral_response}", "Let's see where this leads us.") ].

(** [for key, value in replacements.items(): filled = filled.replace(key, value)]. *)
Fixpoint replace_all (items : list (string * string)) (filled_template : string) : string :=
  match items with
  | [] => filled_template
  | (key, value) :: rest => replace_all rest (PyStr.replace key value filled_template)
  end.

Definition hesitations : list string :=
  ["Who approaches?"; "You seem... different."; "Hmm..."].

Definition _fill_template (template : Entry) (npc_profile : Profile) (context : string)
    (player_choice : option string) : M string :=
  let* hesitation := choice hesitations in
  match template with
  | Template filled_template =>
      ret (replace_all (replacements npc_profile hesitation) filled_template)
  | Modifier _ => raise AttributeError
  end.

(** ** Orchestrator: [generate_dialogue] *)

Definition not_found_in_system (npc_name : string) : string :=
  "[NPC '" +:+ npc_name +:+ "' not found in system]".

Definition generate_dialogue (npc_name context : string) (player_history : History)
    (player_choice : option string) : M string :=
  fun self =>
    match find_profile (npc_profiles self) npc_name with
    | None => ret (not_found_in_system npc_name) self
    | Some npc_profile =>
        (let* interaction_style :=
           lift (_determine_interaction_style npc_profile context player_history) in
         let template := _select_template context interaction_style player_choice in
         let* mood := _determine_mood npc_profile player_history player_choice in
         let* modified_template := lift (_apply_mood_modifiers template mood) in
         _fill_template modified_template npc_profile context player_choice) self
    end.

(** ** Relationship ledger: [update_player_relationship] *)

Definition initial_relationship : RelState :=
  {| affinity := 50; trust := 50; interactions := [] |}.

Definition set_affinity (f : Z -> Z) (r : RelState) : RelState :=
  {| affinity := f (affinity r); trust := trust r; interactions := interactions r |}.

Definition set_trust (f : Q -> Q) (r : RelState) : RelState :=
  {| affinity := affinity r; trust := f (trust r); interactions := interactions r |}.

Definition append_interaction (i : Interaction) (r : RelState) : RelState :=
  {| affinity := affinity r; trust := trust r; interactions := append (interactions r) i |}.

(** The float literal 0.5. *)
Definition half : Q := 1 # 2.

(** The body of [update_player_relationship] on the ledger, one binding
    per statement. *)
Definition update_ledger (npc_name player_action context : string)
    (states : gmap string RelState) : gmap string RelState :=
  let states :=
    match states !! npc_name with
    | None => <[npc_name := initial_relationship]> states
    | Some _ => states
    end in
  let sentiment_score := _analyze_player_action player_action in
  let states := alter (set_affinity (fun a => a + sentiment_score)) npc_name states in
  let states := alter (set_affinity (fun a => Z.max 0 (Z.min 100 a))) npc_name states in
  let trust_change := (inject_Z sentiment_score * half)%Q in
  let states := alter (set_trust (fun t => (t + trust_change)%Q)) npc_name states in
  let states := alter (set_trust (fun t => Qmax 0 (Qmin 100 t))) npc_name states in
  alter (append_interaction
           {| action := player_action;
              interaction_context := context;
              sentiment := sentiment_score;
              timestamp := "simulated_timestamp" |}) npc_name states.

Definition update_player_relationship (npc_name player_action context : string)
    : M unit :=
  fun self =>
    (Ok tt,
     set_relationship_states
       (update_ledger npc_name player_action context (relationship_states self)) self).

(** A session: a sequence of [update_player_relationship] calls, each given
    as (NPC name, action text, context). *)
Definition run_updates (calls : list (string * string * string))
    (states : gmap string RelState) : gmap string RelState :=
  fold_left (fun st c => update_ledger c.1.1 c.1.2 c.2 st) calls states.

(** ** Response option generator *)

Definition _get_player_nickname (affinity : Z) : M string :=
  if 90 <? affinity then choice ["my dear friend"; "partner"; "adventure companion"]
  else if 70 <? affinity then choice ["friend"; "partner"; "adventurer"]
  else ret "traveler".

Definition _generate_suggestion (npc_profile : Profile) (context : string)
    (positive : bool) : string :=
  if PyStr.str_in "Explorer" (class npc_profile) then
    if positive then "explore that less-traveled path" else "follow the safer route this time"
  else if PyStr.str_in "Scientist" (class npc_profile) then
    if positive then "analyze the patterns before deciding" else "consider the unknown variables"
  else if PyStr.str_in "Guardian" (class npc_profile) then
    if positive then "protect what's most valuable first" else "retreat and reassess the situation"
  else
    if positive then "follow your intuition" else "think more about the consequences".

Definition _generate_cautious_response (npc_profile : Profile) : result string :=
  let alignment := PyStr.split (alignment npc_profile) in
  match alignment !! 0%nat with
  | None => Raise IndexError
  | Some w =>
      if String.eqb w "Lawful" then Ok "We need to consider the rules and traditions here"
      else if String.eqb w "Chaotic" then Ok "I don't much trust rigid plans in this situation"
      else Ok "I see pros and cons on both sides"
  end.

Definition _generate_honest_opinion (npc_profile : Profile) (context : string) : string :=
  let default := "I think we should follow what seems most aligned with our goals" in
  match personality_traits npc_profile with
  | first :: others =>
      let max_trait := max_by_value first others in
      let trait_name := fst max_trait in
      if str_mem trait_name ["optimism"; "enthusiasm"; "curiosity"] then
        "I believe we should try the bolder approach"
      else if str_mem trait_name ["wisdom"; "patience"] then
        "I suggest we observe more before acting"
      else if str_mem trait_name ["determination"; "courage"] then
        "we should face this head-on, without hesitation"
      else default
  | [] => default
  end.

Definition _generate_factual_response (npc_profile : Profile) (context : string) : string :=
  let npc_class := class npc_profile in
  if PyStr.str_in "Explorer" npc_class then
    "I've seen similar situations in my travels, and usually it's best to map all possible routes"
  else if PyStr.str_in "Scientist" npc_class then
    "the data suggests there are multiple variables to consider, especially the time factor"
  else if PyStr.str_in "Guardian" npc_class then
    "the natural balance suggests we should intervene minimally, but with precision"
  else
    "based on what we know, we have several viable options to consider".

Definition perspectives : list (string * string) :=
  [ ("Star Explorer",
      "each journey reveals new possibilities we couldn't imagine before setting out");
    ("Techno-Mage Scientist",
      "the intersection between science and the unexplained often reveals the most elegant solutions");
    ("Guardian of the Floating Forests",
      "all parts of a system are connected, and each action creates ripples through the whole");
    ("Sentient Alien Pet",
      "communication goes far beyond words; sometimes the unspoken is more important");
    ("Hero Apprentice",
      "the stories we hear shape the stories we live, and each of us is writing our own chapter") ].

Fixpoint first_perspective (items : list (string * string)) (npc_class : string)
    : option string :=
  match items with
  | [] => None
  | (class_key, perspective) :: rest =>
      if PyStr.str_in class_key npc_class then Some perspective
      else first_perspective rest npc_class
  end.

Definition _generate_class_perspective (npc_class : string) : string :=
  match first_perspective perspectives npc_class with
  | Some perspective => perspective
  | None => "each situation is unique and deserves careful consideration"
  end.

Definition _generate_personality_based_response (npc_profile : Profile)
    (context : string) : string :=
  let interaction_style := interaction_style npc_profile in
  let cue := PyStr.lower context in
  match assoc "under_stress" interaction_style, PyStr.str_in "stress" cue with
  | Some v, true => "[Under pressure] " +:+ v
  | _, _ =>
  match assoc "teaching_moments" interaction_style, PyStr.str_in "learn" cue with
  | Some v, true => "[Teaching] " +:+ v
  | _, _ =>
  match assoc "conflict_resolution" interaction_style,
        PyStr.str_in "conflict" cue || PyStr.str_in "disagree" cue with
  | Some v, true => "[Resolving conflict] " +:+ v
  | _, _ =>
  match assoc "first_meeting" interaction_style, PyStr.str_in "new" cue with
  | Some v, true => "[First meeting] " +:+ v
  | _, _ =>
      "As a " +:+ class npc_profile +:+ ", my perspective is that "
        +:+ _generate_class_perspective (class npc_profile)
  end end end end.

Definition not_found (npc_name : string) : string :=
  "[NPC '" +:+ npc_name +:+ "' not found]".

Definition filler (phrase : string) : string :=
  "Interesting perspective. Let's consider " +:+ phrase +:+ ".".

Definition filler_phrases : list string :=
  ["next steps"; "other options"; "alternatives"].

(** [while len(options) < num_options: options.append(...)], by the number
    of slots still missing. *)
Fixpoint fill_options (missing : nat) (options : list string) : M (list string) :=
  match missing with
  | O => ret options
  | S m =>
      let* phrase := choice filler_phrases in
      fill_options m (append options (filler phrase))
  end.

(** The candidate pool of [generate_response_options], built in source
    order from the affinity and trust read from the ledger. *)
Definition build_options (npc_profile : Profile) (context : string)
    (affinity : Z) (trust : Q) : M (list string) :=
  let options := [] in
  let* options :=
    if 60 <? affinity then
      let* nickname := _get_player_nickname affinity in
      ret (append options
        ("I completely understand, " +:+ nickname +:+ ". "
         +:+ "Considering our history together, I suggest "
         +:+ _generate_suggestion npc_profile context true +:+ "."))
    else ret options in
  let* options :=
    if affinity <? 40 then
      let* cautious := lift (_generate_cautious_response npc_profile) in
      ret (append options
        ("Hmm. " +:+ cautious +:+ ". "
         +:+ "Perhaps we should "
         +:+ _generate_suggestion npc_profile context false +:+ "."))
    else ret options in
  let options :=
    if negb (Qle_bool trust 70) then
      append options
        ("I trust you to make the right decision here. "
         +:+ "If you want my honest opinion, "
         +:+ _generate_honest_opinion npc_profile context +:+ ".")
    else options in
  let options :=
    append options
      ("Considering the facts, " +:+ _generate_factual_response npc_profile context +:+ ".") in
  let options := append options (_generate_personality_based_response npc_profile context) in
  ret options.

Definition generate_response_options (npc_name context player_statement : string)
    (num_options : Z) : M (list string) :=
  fun self =>
    match find_profile (npc_profiles self) npc_name with
    | None => ret (repeat (not_found npc_name) (Z.to_nat num_options)) self
    | Some npc_profile =>
        let relationship :=
          match relationship_states self !! npc_name with
          | Some r => (affinity r, trust r)
          | None => (50, 50%Q)
          end in
        let affinity := relationship.1 in
        let trust := relationship.2 in
        let tone :=
          if 70 <? affinity then "friendly"
          else if 30 <? affinity then "neutral" else "cautious" in
        (let* options := build_options npc_profile context affinity trust in
         if num_options <? Z.of_nat (length options) then sample options num_options
         else fill_options (Z.to_nat (num_options - Z.of_nat (length options))) options) self
    end.

(** The ledger of a freshly constructed engine. *)
Definition empty_ledger : gmap string RelState := ∅.

(** ** Vocabulary of the statements *)

(** The state an update starts from: the stored one, or the baseline that a
    first call creates. *)
Definition current (states : gmap string RelState) (npc_name : string) : RelState :=
  default initial_relationship (states !! npc_name).

(** The record one update appends. *)
Definition record_of (player_action context : string) : Interaction :=
  {| action := player_action;
     interaction_context := context;
     sentiment := _analyze_player_action player_action;
     timestamp := "simulated_timestamp" |}.

(** What one update makes of the state it starts from. *)
Definition updated (player_action context : string) (r : RelState) : RelState :=
  let s := _analyze_player_action player_action in
  {| affinity := Z.max 0 (Z.min 100 (affinity r + s));
     trust := Qmax 0 (Qmin 100 (trust r + inject_Z s * half));
     interactions := (interactions r ++ [record_of player_action context])%list |}.

Definition in_range (r : RelState) : Prop :=
  0 <= affinity r <= 100 /\ (0 <= trust r)%Q /\ (trust r <= 100)%Q.

Definition ledger_ok (states : gmap string RelState) : Prop :=
  forall npc_name r, states !! npc_name = Some r -> in_range r.

(** The calls of one NPC, from their action texts and contexts. *)
Definition calls_for (npc_name : string) (acts : list (string * string))
    : list (string * string * string) :=
  List.map (fun ac => (npc_name, ac.1, ac.2)) acts.

(** A session driven through the public operation: the calls of
    [update_player_relationship] one after the other. *)
Fixpoint session (calls : list (string * string * string)) : M unit :=
  match calls with
  | [] => ret tt
  | (npc_name, player_action, context) :: rest =>
      let* _ := update_player_relationship npc_name player_action context in
      session rest
  end.

(** The ledger an operation leaves behind. *)
Definition ledger_after {A} (m : M A) (self : Engine) : gmap string RelState :=
  relationship_states (m self).2.

(** The value an operation returns, or the exception it raises. *)
Definition outcome {A} (m : M A) (self : Engine) : result A := (m self).1.

(** An engine as [__init__] leaves it, for a given profile store. *)
Definition new_engine (npcs : list Profile) (g : Rng) : Engine :=
  {| npc_profiles := npcs; relationship_states := empty_ledger; random_source := g |}.

(** Concrete inputs used to exercise the statements. *)
Definition demo_rng : Rng := {| tape := fun i => N.of_nat (7 * i + 3); cursor := 0 |}.

Definition demo_boost : string * string :=
  ("help save protect agree gift", "cooperative mission").

(** An operation that leaves the ledger as it found it, whether it returns
    or raises. *)
Definition preserves_ledger {A} (m : M A) : Prop :=
  forall self, ledger_after m self = relationship_states self.

(** An operation that always returns, with a value satisfying [P], and
    changes nothing but the position of the random source. *)
Definition returns {A} (m : M A) (P : A -> Prop) : Prop :=
  forall self, exists a self',
    m self = (Ok a, self')
    /\ P a
    /\ relationship_states self' = relationship_states self
    /\ npc_profiles self' = npc_profiles self.

(** The filler sentences that pad a short pool. *)
Definition is_filler (s : string) : Prop :=
  exists phrase, In phrase filler_phrases /\ s = filler phrase.

(** The alignment of a profile, as the words [split()] finds in it. *)
Definition alignment_words (p : Profile) : list string := PyStr.split (alignment p).

(** The prefixes [_apply_mood_modifiers] can put before a template: none for
    an unrecognised mood, else the bracketed speech pattern of the mood. *)
Definition mood_prefixes : list string :=
  [ EmptyString; "[expansive and enthusiastic] "; "[slow and melancholic] ";
    "[short and intense] "; "[questioning and reflective] " ].

Definition demo_elian : Profile :=
  {| name := "Dr. Elian Thaumatec";
     class := "Techno-Mage Scientist";
     alignment := "Neutral Good";
     personality_traits := [("wisdom", 9 # 10); ("curiosity", 8 # 10)];
     backstory := "Born in a floating lab. He studied the old machines. Then he left.";
     interaction_style := [("under_stress", "Let us stay calm and think.")] |}.

(** The candidate pool of a known NPC has two to four entries. *)
Definition pool_size_ok (options : list string) : Prop :=
  (2 <= length options <= 4)%nat.

Definition demo_engine : Engine := new_engine [demo_elian] demo_rng.

(** ** Templates as segments *)

(** [s] contains the character that opens a placeholder. *)
Fixpoint has_open_brace (s : string) : bool :=
  match s with
  | EmptyString => false
  | String c s' => Ascii.eqb c "{" || has_open_brace s'
  end.

(** A template read as literal text between placeholders. *)
Inductive segment : Type :=
| Lit (text : string)
| Hole (key : string).

Fixpoint render_segments (segs : list segment) : string :=
  match segs with
  | [] => EmptyString
  | Lit a :: rest => a +:+ render_segments rest
  | Hole k :: rest => k +:+ render_segments rest
  end.

Definition flush (cur : list ascii) : list segment :=
  match cur with
  | [] => []
  | _ => [Lit (string_of_list_ascii (rev cur))]
  end.

(** Reads a template into segments: a placeholder runs from an opening brace
    to the next closing brace. *)
Fixpoint parse_template (in_key : bool) (cur : list ascii) (s : string) : list segment :=
  match s with
  | EmptyString => flush cur
  | String c s' =>
      if in_key then
        if Ascii.eqb c "}"
        then Hole (string_of_list_ascii (rev (c :: cur))) :: parse_template false [] s'
        else parse_template true (c :: cur) s'
      else
        if Ascii.eqb c "{"
        then (flush cur ++ parse_template true [c] s')%list
        else parse_template false (c :: cur) s'
  end.

(** The keys of the [replacements] dictionary, in insertion order. *)
Definition placeholder_keys : list string :=
  [ "{npc_name}"; "{npc_title}"; "{custom_intro}"; "{hesitation}";
    "{quest_description}"; "{approval_response}"; "{disappointment_response}";
    "{surprise_response}"; "{neutral_response}" ].

(** A segment is in order for the keys [R] still to be replaced: literal
    text opens no placeholder, and a hole waits for a key of [R]. *)
Definition segment_ok (R : list string) (seg : segment) : bool :=
  match seg with
  | Lit a => negb (has_open_brace a)
  | Hole k => str_mem k R
  end.

(** The two strings differ at a position both have. *)
Fixpoint mismatch (a b : string) : bool :=
  match a, b with
  | String x a', String y b' => if Ascii.eqb x y then mismatch a' b' else true
  | _, _ => false
  end.

(** Each key is an opening brace followed by text without one, and no key
    can be mistaken for the start of another. *)
Definition key_shape (k : string) : bool :=
  match k with
  | String c body => Ascii.eqb c "{" && negb (has_open_brace body)
  | EmptyString => false
  end.

Definition keys_ok (K : list string) : bool :=
  forallb key_shape K
  && forallb (fun k1 => forallb (fun k2 => String.eqb k1 k2 || mismatch k1 k2) K) K.

(** What one [replace] pass does to the segments, and to the keys waiting. *)
Definition subst_segment (key value : string) (seg : segment) : segment :=
  match seg with
  | Hole k => if String.eqb k key then Lit value else seg
  | Lit _ => seg
  end.

Definition drop_key (key : string) (R : list string) : list string :=
  List.filter (fun k => negb (String.eqb k key)) R.

Definition remaining (items : list (string * string)) (R : list string) : list string :=
  fold_left (fun R kv => drop_key kv.1 R) items R.

(** A template is read back exactly by its segments, which are in order. *)
Definition template_ok (t : string) : bool :=
  let segs := parse_template false [] t in
  String.eqb (render_segments segs) t && forallb (segment_ok placeholder_keys) segs.

(** The text fields of a profile that reach a rendered line. *)
Definition brace_free_profile (p : Profile) : Prop :=
  has_open_brace (name p) = false
  /\ has_open_brace (class p) = false
  /\ has_open_brace (alignment p) = false
  /\ has_open_brace (backstory p) = false.

(** Rendering for a given style and mood: the steps of [generate_dialogue]
    after the style and the mood are chosen. *)
Definition render (context interaction_style mood : string) (npc_profile : Profile)
    (player_choice : option string) : M string :=
  let template := _select_template context interaction_style player_choice in
  let* modified_template := lift (_apply_mood_modifiers template mood) in
  _fill_template modified_template npc_profile context player_choice.

(** A well-formed profile whose name is the text of a placeholder. *)
Definition demo_braces : Profile :=
  {| name := "{npc_name}";
     class := "Hero Apprentice";
     alignment := "Lawful Good";
     personality_traits := [];
     backstory := EmptyString;
     interaction_style := [] |}.

(** ** Vocabulary of the further properties *)

(** The records a session appends to the log of one NPC: those of the calls
    that name it, in call order. *)
Definition log_of (npc_name : string) (calls : list (string * string * string))
    : list Interaction :=
  List.map (fun c => record_of c.1.2 c.2)
           (List.filter (fun c => String.eqb c.1.1 npc_name) calls).

(** The NPC names a session updates. *)
Definition names_of (calls : list (string * string * string)) : list string :=
  List.map (fun c => c.1.1) calls.

(** The sum of the sentiment scores of a list of actions. *)
Definition total_score (acts : list (string * string)) : Z :=
  fold_right (fun ac acc => _analyze_player_action ac.1 + acc) 0 acts.

(** A trust value that is a whole number. *)
Definition whole (t : Q) : Prop := exists z : Z, (t == inject_Z z)%Q.

(** What holds of every entry a session can create from an empty ledger. *)
Definition entry_invariant (r : RelState) : Prop :=
  in_range r
  /\ whole (trust r)
  /\ interactions r <> []
  /\ Forall (fun i => -10 <= sentiment i <= 10 /\ Z.even (sentiment i) = true)
            (interactions r).

Definition ledger_invariant (states : gmap string RelState) : Prop :=
  forall npc_name r, states !! npc_name = Some r -> entry_invariant r.

(** The prefixes the four moods put before a template. *)
Definition speech_prefixes : list string :=
  [ "[expansive and enthusiastic] "; "[slow and melancholic] ";
    "[short and intense] "; "[questioning and reflective] " ].

(** The style labels the selector can answer with. *)
Definition style_labels : list string :=
  [ "friendly"; "cautious"; "mysterious"; "casual"; "neutral"; "approval" ].

(** The contexts that have templates of their own. *)
Definition catalog_contexts : list string :=
  [ "greeting"; "quest_offer"; "response_to_player_choice" ].

(** What the whole replacement loop does to the segments of a template. *)
Definition subst_all (items : list (string * string)) (segs : list segment)
    : list segment :=
  fold_left (fun segs kv => List.map (subst_segment kv.1 kv.2) segs) items segs.

(** The two quest lines and the two answers to a player choice, as they are
    rendered behind the speech prefix. *)
Definition quest_mysterious_text : string :=
  "I have an... interesting proposal. [Quest description would be dynamically generated] There's more to this than meets the eye.".

Definition quest_casual_text : string :=
  "If you have time, could you help me with something? [Quest description would be dynamically generated] No rush.".

Definition choice_neutral_text : string :=
  "I understand your decision. Let's see where this leads us.".

Definition choice_approval_text : string :=
  "Excellent choice! This shows your character.".

(** The value substituted for [{custom_intro}]. *)
Definition custom_intro (npc_profile : Profile) : string :=
  "I am " +:+ alignment npc_profile +:+ " and " +:+ _generate_intro_snippet npc_profile.

(** The two candidates every pool ends with. *)
Definition factual_option (npc_profile : Profile) (context : string) : string :=
  "Considering the facts, " +:+ _generate_factual_response npc_profile context +:+ ".".

Definition closing_options (npc_profile : Profile) (context : string) : list string :=
  [factual_option npc_profile context;
   _generate_personality_based_response npc_profile context].

(** How many candidates the relationship adds before them. *)
Definition flavoured_count (affinity : Z) (trust : Q) : nat :=
  ((if ((60 <? affinity)%Z || (affinity <? 40)%Z)%bool then 1 else 0)
   + (if negb (Qle_bool trust 70%Q) then 1 else 0))%nat.

(** A profile whose alignment is blank. *)
Definition demo_blank : Profile :=
  {| name := "Blip";
     class := "Sentient Alien Pet";
     alignment := " ";
     personality_traits := [];
     backstory := EmptyString;
     interaction_style := [] |}.

Definition demo_hostile : string * string :=
  ("attack steal lie threaten insult", "ambush").

(** [s] contains a full stop. *)
Fixpoint has_period (s : string) : bool :=
  match s with
  | EmptyString => false
  | String c s' => Ascii.eqb c "." || has_period s'
  end.

(** [self'] is [self] after [k] draws from the random source and no other
    change. *)
Definition after_draws (k : nat) (self self' : Engine) : Prop :=
  npc_profiles self' = npc_profiles self
  /\ relationship_states self' = relationship_states self
  /\ tape (random_source self') = tape (random_source self)
  /\ cursor (random_source self') = (cursor (random_source self) + k)%nat.

(** The branches of [_generate_honest_opinion] and [_determine_mood], by the
    name of the trait they are entered with. *)
Definition opinion_of_trait (trait_name : string) : string :=
  if str_mem trait_name ["optimism"; "enthusiasm"; "curiosity"] then
    "I believe we should try the bolder approach"
  else if str_mem trait_name ["wisdom"; "patience"] then
    "I suggest we observe more before acting"
  else if str_mem trait_name ["determination"; "courage"] then
    "we should face this head-on, without hesitation"
  else "I think we should follow what seems most aligned with our goals".

Definition mood_of_trait (trait_name : string) : M string :=
  if str_mem trait_name ["optimism"; "enthusiasm"; "curiosity"] then
    let* b := random_lt f0_7 in
    if b then ret "happy" else choice moods
  else if str_mem trait_name ["wisdom"; "empathy"; "compassion"] then
    let* b := random_lt f0_6 in
    if b then ret "curious" else choice moods
  else if str_mem trait_name ["determination"; "courage"] then
    choice moods
  else
    let* b := random_lt f0_4 in
    if b then ret "curious" else choice moods.

(** A profile whose two heaviest traits tie. *)
Definition demo_tie : Profile :=
  {| name := "Sylva Aerafrond";
     class := "Guardian of the Floating Forests";
     alignment := "Neutral Good";
     personality_traits := [("courage", 5 # 10); ("wisdom", 9 # 10); ("optimism", 9 # 10)];
     backstory := EmptyString;
     interaction_style := [] |}.

(** * Properties *)


(** ** Text primitives *)

Section Text.

Lemma startswith_spec (p s : string) :
  PyStr.startswith p s = true <-> exists post, s = p +:+ post.
Proof.
  revert s. induction p as [|a p IH]; intros s; simpl.
  - split; [intros _; exists s; reflexivity | reflexivity].
  - destruct s as [|b s]; simpl.
    + split; [discriminate | intros [post H]; discriminate].
    + rewrite andb_true_iff, Ascii.eqb_eq, IH. split.
      * intros [-> [post ->]]. exists post. reflexivity.
      * intros [post H]. injection H as -> ->. split; [reflexivity | eauto].
Qed.

(** [str_in w s] is the Python test [w in s]: [w] is a contiguous part
    of [s]. *)
Lemma str_in_spec (w s : string) :
  PyStr.str_in w s = true <-> exists pre post, s = pre +:+ w +:+ post.
Proof.
  induction s as [|c s IH]; simpl; rewrite orb_true_iff, startswith_spec.
  - split.
    + intros [[post H]|H]; [|discriminate]. exists EmptyString, post. exact H.
    + intros [pre [post H]]. left. destruct pre; [|discriminate].
      exists post. exact H.
  - rewrite IH. split.
    + intros [[post H]|[pre [post H]]].
      * exists EmptyString, post. exact H.
      * exists (String c pre), post. rewrite H. reflexivity.
    + intros [[|c' pre] [post H]].
      * left. exists post. exact H.
      * right. simpl in H. injection H as -> ->. eauto.
Qed.

Lemma str_in_intro (pre w post : string) : PyStr.str_in w (pre +:+ w +:+ post) = true.
Proof. apply str_in_spec. eauto. Qed.

Lemma string_app_assoc (a b c : string) : (a +:+ b) +:+ c = a +:+ b +:+ c.
Proof.
  induction a as [|x a IH]; [reflexivity|].
  change (String x ((a +:+ b) +:+ c) = String x (a +:+ b +:+ c)).
  f_equal. exact IH.
Qed.

End Text.

(** ** Sentiment scorer *)

Section Scorer.

Lemma keyword_loop_count (step : Z) (keywords : list string) (text : string) (score : Z) :
  keyword_loop step keywords text score
  = score + step * Z.of_nat (length (List.filter (fun w => PyStr.str_in w text) keywords)).
Proof.
  revert score. induction keywords as [|w ws IH]; intros score; simpl.
  - lia.
  - rewrite IH. destruct (PyStr.str_in w text); simpl length; lia.
Qed.

Lemma analyze_by_hits (text : string) :
  _analyze_player_action text
  = Z.max (-10) (Z.min 10 (2 * keyword_hits positive_keywords text
                           - 2 * keyword_hits negative_keywords text)).
Proof.
  unfold _analyze_player_action, keyword_hits.
  rewrite !keyword_loop_count. f_equal. f_equal. lia.
Qed.

Lemma analyze_range (text : string) : -10 <= _analyze_player_action text <= 10.
Proof. unfold _analyze_player_action. lia. Qed.

End Scorer.

(** ** Relationship ledger *)

Section Ledger.

Lemma update_ledger_same (npc_name player_action context : string)
    (states : gmap string RelState) :
  update_ledger npc_name player_action context states !! npc_name
  = Some (updated player_action context (current states npc_name)).
Proof.
  unfold update_ledger, current.
  destruct (states !! npc_name) as [r|] eqn:E;
    rewrite !lookup_alter_eq; [rewrite E | rewrite lookup_insert_eq]; reflexivity.
Qed.

Lemma update_ledger_other (npc_name other player_action context : string)
    (states : gmap string RelState) :
  other <> npc_name ->
  update_ledger npc_name player_action context states !! other = states !! other.
Proof.
  intros Hne. unfold update_ledger.
  rewrite !lookup_alter_ne by congruence.
  destruct (states !! npc_name); [reflexivity|].
  rewrite lookup_insert_ne by congruence. reflexivity.
Qed.

Lemma updated_in_range (player_action context : string) (r : RelState) :
  in_range (updated player_action context r).
Proof.
  unfold in_range, updated; simpl. split; [lia|]. split.
  - apply Q.le_max_l.
  - apply Q.max_lub; [discriminate | apply Q.le_min_l].
Qed.

Lemma update_ledger_ok (npc_name player_action context : string)
    (states : gmap string RelState) :
  ledger_ok states -> ledger_ok (update_ledger npc_name player_action context states).
Proof.
  intros Hok other r Hl.
  destruct (decide (other = npc_name)) as [->|Hne].
  - rewrite update_ledger_same in Hl. injection Hl as <-. apply updated_in_range.
  - rewrite update_ledger_other in Hl by assumption. eapply Hok, Hl.
Qed.

Lemma run_updates_ok (calls : list (string * string * string))
    (states : gmap string RelState) :
  ledger_ok states -> ledger_ok (run_updates calls states).
Proof.
  revert states. induction calls as [|c calls IH]; intros states Hok; simpl.
  - exact Hok.
  - apply IH, update_ledger_ok, Hok.
Qed.

Lemma empty_ledger_ok : ledger_ok empty_ledger.
Proof. intros n r H. unfold empty_ledger in H. rewrite lookup_empty in H. discriminate. Qed.

Lemma current_update_same (npc_name player_action context : string)
    (states : gmap string RelState) :
  current (update_ledger npc_name player_action context states) npc_name
  = updated player_action context (current states npc_name).
Proof. unfold current at 1. rewrite update_ledger_same. reflexivity. Qed.

Lemma current_update_other (npc_name other player_action context : string)
    (states : gmap string RelState) :
  other <> npc_name ->
  current (update_ledger npc_name player_action context states) other
  = current states other.
Proof. intros H. unfold current. rewrite update_ledger_other by assumption. reflexivity. Qed.

(** Within a session the interaction log of every NPC is extended at its
    end only. *)
Lemma run_updates_prefix (calls : list (string * string * string))
    (states : gmap string RelState) (npc_name : string) :
  interactions (current states npc_name)
    `prefix_of` interactions (current (run_updates calls states) npc_name).
Proof.
  revert states. induction calls as [|[[n a] c] calls IH]; intros states; simpl.
  - reflexivity.
  - etransitivity; [|apply IH]. simpl.
    destruct (decide (npc_name = n)) as [->|Hne].
    + rewrite current_update_same. simpl. apply prefix_app_r. reflexivity.
    + rewrite current_update_other by assumption. reflexivity.
Qed.

Lemma boosts_affinity (npc_name : string) (acts : list (string * string))
    (states : gmap string RelState) :
  Forall (fun ac => _analyze_player_action ac.1 = 10) acts ->
  0 <= affinity (current states npc_name) <= 100 ->
  affinity (current (run_updates (calls_for npc_name acts) states) npc_name)
  = Z.min 100 (affinity (current states npc_name) + 10 * Z.of_nat (length acts)).
Proof.
  intros Hall. revert states. induction Hall as [|[a c] acts Ha Hall IH];
    intros states Hr; simpl in *; [lia|].
  rewrite IH; rewrite current_update_same; simpl affinity; rewrite Ha; lia.
Qed.

End Ledger.

(** ** The claims on the ledger and the scorer *)

Section LedgerClaims.

Lemma session_run_updates (calls : list (string * string * string)) (self : Engine) :
  session calls self
  = (Ok tt, set_relationship_states (run_updates calls (relationship_states self)) self).
Proof.
  revert self. induction calls as [|[[n a] c] calls IH]; intros self; simpl.
  - destruct self; reflexivity.
  - unfold bind, update_player_relationship. rewrite IH. reflexivity.
Qed.

Lemma ledger_after_session (calls : list (string * string * string)) (self : Engine) :
  ledger_after (session calls) self = run_updates calls (relationship_states self).
Proof. unfold ledger_after. rewrite session_run_updates. reflexivity. Qed.

Lemma ledger_after_update (npc_name player_action context : string) (self : Engine) :
  ledger_after (update_player_relationship npc_name player_action context) self
  = update_ledger npc_name player_action context (relationship_states self).
Proof. reflexivity. Qed.

Lemma current_in_range (states : gmap string RelState) (npc_name : string) :
  ledger_ok states -> in_range (current states npc_name).
Proof.
  intros Hok. unfold current. destruct (states !! npc_name) as [r|] eqn:E; simpl.
  - eapply Hok, E.
  - unfold in_range; simpl. repeat split; try lia; discriminate.
Qed.

End LedgerClaims.

(** C1.  Whatever sequence of [update_player_relationship] calls a session
    makes, with whatever action texts and contexts, from a ledger whose
    entries are within bounds (the empty ledger of a new engine is one), the
    affinity and the trust of every NPC stay within [0,100].  Fifty updates
    of one NPC that each score +10, from the 50/50 baseline, leave its
    affinity at exactly 100.  One update appends exactly one record to the
    interaction log of its NPC and leaves every other NPC's state alone, so
    over a session each log is only extended at its end. *)
Theorem ledger_bounds_and_growth
    (calls : list (string * string * string)) (self : Engine) (npc_name : string) :
  (ledger_ok (relationship_states self) ->
   in_range (current (ledger_after (session calls) self) npc_name))
  /\ (forall acts : list (string * string),
        length acts = 50%nat ->
        Forall (fun ac => _analyze_player_action ac.1 = 10) acts ->
        affinity (current (relationship_states self) npc_name) = 50 ->
        affinity (current (ledger_after (session (calls_for npc_name acts)) self) npc_name)
        = 100)
  /\ (forall player_action context : string,
        interactions
          (current (ledger_after
                      (update_player_relationship npc_name player_action context) self)
                   npc_name)
        = (interactions (current (relationship_states self) npc_name)
             ++ [record_of player_action context])%list)
  /\ (forall other player_action context : string,
        other <> npc_name ->
        ledger_after (update_player_relationship other player_action context) self
          !! npc_name
        = relationship_states self !! npc_name)
  /\ interactions (current (relationship_states self) npc_name)
       `prefix_of` interactions (current (ledger_after (session calls) self) npc_name).
Proof.
  split; [|split; [|split; [|split]]].
  - intros Hok. rewrite ledger_after_session.
    apply current_in_range, run_updates_ok, Hok.
  - intros acts Hlen Hall H50. rewrite ledger_after_session.
    rewrite boosts_affinity by (assumption || lia). rewrite H50, Hlen. reflexivity.
  - intros a c. rewrite ledger_after_update, current_update_same. reflexivity.
  - intros other a c Hne. rewrite ledger_after_update.
    apply update_ledger_other. congruence.
  - rewrite ledger_after_session. apply run_updates_prefix.
Qed.

Lemma ledger_bounds_and_growth_witness :
  in_range (current (ledger_after (session (calls_for "Mira Lumina" (repeat demo_boost 50)))
                                  (new_engine [] demo_rng)) "Mira Lumina")
  /\ affinity (current (ledger_after (session (calls_for "Mira Lumina" (repeat demo_boost 50)))
                                     (new_engine [] demo_rng)) "Mira Lumina") = 100.
Proof.
  destruct (ledger_bounds_and_growth (calls_for "Mira Lumina" (repeat demo_boost 50))
              (new_engine [] demo_rng) "Mira Lumina") as (Hrange & Hboost & _).
  split.
  - apply Hrange. simpl. apply empty_ledger_ok.
  - apply Hboost.
    + reflexivity.
    + apply Forall_forall. intros ac Hin. apply list_elem_of_In, repeat_spec in Hin. subst ac.
      vm_compute. reflexivity.
    + reflexivity.
Defined.

(** C2.  The sentiment score of any action text lies in [-10,10] and is
    twice the number of positive keywords occurring in the lower-cased text,
    minus twice the number of negative keywords occurring in it, clamped to
    [-10,10].  So a text in which exactly [k] positive keywords and no
    negative keyword occur scores [min(10, 2k)]. *)
Theorem sentiment_scorer_formula (text : string) :
  -10 <= _analyze_player_action text <= 10
  /\ _analyze_player_action text
     = Z.max (-10) (Z.min 10 (2 * keyword_hits positive_keywords text
                              - 2 * keyword_hits negative_keywords text))
  /\ (forall k : Z,
        keyword_hits positive_keywords text = k ->
        keyword_hits negative_keywords text = 0 ->
        _analyze_player_action text = Z.min 10 (2 * k)).
Proof.
  split; [apply analyze_range|]. split; [apply analyze_by_hits|].
  intros k Hpos Hneg. rewrite analyze_by_hits, Hpos, Hneg.
  assert (0 <= k) by (subst k; unfold keyword_hits; lia). lia.
Qed.

Lemma sentiment_scorer_formula_witness :
  _analyze_player_action "I will HELP and protect you" = Z.min 10 (2 * 2).
Proof.
  destruct (sentiment_scorer_formula "I will HELP and protect you") as (_ & _ & Hk).
  apply Hk; vm_compute; reflexivity.
Defined.

(** C3.  The first [update_player_relationship] call for an NPC without a
    ledger entry creates the entry at affinity 50, trust 50 and no
    interactions, and applies the update to that baseline.  With the action
    "I will help and protect you" (two positive keywords, score +4) the
    entry ends at affinity 54, trust 52 and one interaction. *)
Theorem first_update_from_baseline
    (self : Engine) (npc_name player_action context : string) :
  relationship_states self !! npc_name = None ->
  let s := _analyze_player_action player_action in
  let after :=
    ledger_after (update_player_relationship npc_name player_action context) self in
  after !! npc_name
  = Some {| affinity := Z.max 0 (Z.min 100 (50 + s));
            trust := Qmax 0 (Qmin 100 (50 + inject_Z s * half));
            interactions := [record_of player_action context] |}
  /\ (player_action = "I will help and protect you" ->
      exists r,
        after !! npc_name = Some r
        /\ affinity r = 54 /\ (trust r == 52)%Q /\ length (interactions r) = 1%nat).
Proof.
  intros Hnone s after.
  assert (Hafter : after !! npc_name
                   = Some (updated player_action context initial_relationship)).
  { subst after. rewrite ledger_after_update, update_ledger_same.
    unfold current. rewrite Hnone. reflexivity. }
  split; [exact Hafter|].
  intros ->. eexists. split; [exact Hafter|].
  vm_compute. repeat split; reflexivity.
Qed.

Lemma first_update_from_baseline_witness :
  exists r,
    ledger_after
      (update_player_relationship "Dr. Elian Thaumatec" "I will help and protect you"
         "cooperative mission") (new_engine [] demo_rng) !! "Dr. Elian Thaumatec"
    = Some r
    /\ affinity r = 54 /\ (trust r == 52)%Q /\ length (interactions r) = 1%nat.
Proof.
  apply (first_update_from_baseline (new_engine [] demo_rng) "Dr. Elian Thaumatec"
           "I will help and protect you" "cooperative mission").
  - reflexivity.
  - reflexivity.
Defined.

(** ** Effects of the engine's operations *)

Section Effects.

Context {A B : Type}.

Lemma returns_ret (a : A) (P : A -> Prop) : P a -> returns (ret a) P.
Proof. intros Ha self. exists a, self. unfold ret. auto. Qed.

Lemma returns_bind (m : M A) (k : A -> M B) (P : A -> Prop) (Q : B -> Prop) :
  returns m P -> (forall a, P a -> returns (k a) Q) -> returns (bind m k) Q.
Proof.
  intros Hm Hk self. destruct (Hm self) as (a & s1 & E1 & Ha & Hr1 & Hp1).
  destruct (Hk a Ha s1) as (b & s2 & E2 & Hb & Hr2 & Hp2).
  exists b, s2. unfold bind. rewrite E1, E2. repeat split; congruence.
Qed.

Lemma returns_weaken (m : M A) (P Q : A -> Prop) :
  returns m P -> (forall a, P a -> Q a) -> returns m Q.
Proof.
  intros Hm HPQ self. destruct (Hm self) as (a & s1 & E & Ha & H).
  exists a, s1. auto.
Qed.

Lemma returns_preserves (m : M A) (P : A -> Prop) : returns m P -> preserves_ledger m.
Proof.
  intros Hm self. destruct (Hm self) as (a & s1 & E & _ & Hr & _).
  unfold ledger_after. rewrite E. exact Hr.
Qed.

Lemma preserves_ret (a : A) : preserves_ledger (ret a).
Proof. intros self. reflexivity. Qed.

Lemma preserves_raise (x : exn) : preserves_ledger (@raise A x).
Proof. intros self. reflexivity. Qed.

Lemma preserves_lift (r : result A) : preserves_ledger (lift r).
Proof. intros self. reflexivity. Qed.

Lemma preserves_bind (m : M A) (k : A -> M B) :
  preserves_ledger m -> (forall a, preserves_ledger (k a)) -> preserves_ledger (bind m k).
Proof.
  intros Hm Hk self. unfold ledger_after, bind.
  specialize (Hm self). unfold ledger_after in Hm.
  destruct (m self) as [[a|x] s1]; simpl in *.
  - rewrite <- Hm. apply Hk.
  - exact Hm.
Qed.

End Effects.

Section Draws.

Lemma returns_draw : returns draw (fun _ => True).
Proof. intros self. eexists _, _. unfold draw. repeat split. Qed.

Lemma returns_choice {A} (seq : list A) :
  seq <> [] -> returns (choice seq) (fun x => In x seq).
Proof.
  destruct seq as [|x seq]; [congruence|]. intros _. unfold choice.
  eapply returns_bind; [apply returns_draw|]. intros r _.
  apply returns_ret.
  set (j := N.to_nat (r mod N.of_nat (length (x :: seq)))).
  apply nth_In. subst j. simpl length.
  pose proof (N.mod_lt r (N.of_nat (S (length seq)))). lia.
Qed.

Lemma returns_random_lt (threshold : N) : returns (random_lt threshold) (fun _ => True).
Proof.
  unfold random_lt. eapply returns_bind; [apply returns_draw|].
  intros r _. apply returns_ret. exact I.
Qed.

End Draws.

Create HintDb engine_effects.
#[local] Hint Resolve preserves_ret preserves_raise preserves_lift : engine_effects.
#[local] Hint Resolve returns_draw returns_random_lt : engine_effects.

(** ** Style selector *)

Section Style.

Lemma str_mem_spec (x : string) (l : list string) : str_mem x l = true <-> In x l.
Proof.
  unfold str_mem. rewrite existsb_exists. split.
  - intros [y [Hin E]]. apply String.eqb_eq in E. congruence.
  - intros Hin. exists x. split; [assumption | apply String.eqb_refl].
Qed.

Lemma greeting_style_second_word (p : Profile) (h : History) :
  _determine_interaction_style p "greeting" h
  = match alignment_words p !! 1%nat with
    | Some w => Ok (if String.eqb w "Good" then "friendly" else "cautious")
    | None => Raise IndexError
    end.
Proof. reflexivity. Qed.

Lemma quest_offer_style_by_class (p : Profile) (h : History) :
  _determine_interaction_style p "quest_offer" h
  = if str_mem (class p) ["Techno-Mage Scientist"; "Sentient Alien Pet"]
    then Ok "mysterious" else Ok "casual".
Proof. reflexivity. Qed.

(** The label that selects the quest branch never contains "urgency", so
    that branch never answers "urgent". *)
Lemma quest_offer_never_urgent (p : Profile) (h : History) :
  _determine_interaction_style p "quest_offer" h <> Ok "urgent".
Proof.
  rewrite quest_offer_style_by_class.
  destruct (str_mem (class p) _); discriminate.
Qed.

End Style.

(** C6.  For a profile whose alignment is a two-word string and the context
    "greeting", the style is "friendly" when the second word is "Good" and
    "cautious" for any other second word, whatever the history argument. *)
Theorem greeting_style_by_alignment (p : Profile) (h : History) (w1 w2 : string) :
  alignment_words p = [w1; w2] ->
  (w2 = "Good" -> _determine_interaction_style p "greeting" h = Ok "friendly")
  /\ (w2 <> "Good" -> _determine_interaction_style p "greeting" h = Ok "cautious")
  /\ (forall h' : History,
        _determine_interaction_style p "greeting" h'
        = _determine_interaction_style p "greeting" h).
Proof.
  intros Hw. rewrite greeting_style_second_word, Hw. simpl.
  split; [|split].
  - intros ->. reflexivity.
  - intros Hne. apply String.eqb_neq in Hne. rewrite Hne. reflexivity.
  - intros h'. rewrite greeting_style_second_word, Hw. reflexivity.
Qed.

(** C7.  For the context "quest_offer" the style is "urgent" if "urgency"
    occurs in the lower-cased context label; otherwise "mysterious" if the
    class is "Techno-Mage Scientist" or "Sentient Alien Pet"; otherwise
    "casual". *)
Theorem quest_offer_style (p : Profile) (h : History) :
  _determine_interaction_style p "quest_offer" h
  = Ok (if PyStr.str_in "urgency" (PyStr.lower "quest_offer") then "urgent"
        else if bool_decide (In (class p) ["Techno-Mage Scientist"; "Sentient Alien Pet"])
             then "mysterious"
             else "casual").
Proof.
  rewrite quest_offer_style_by_class.
  replace (PyStr.str_in "urgency" (PyStr.lower "quest_offer")) with false
    by (vm_compute; reflexivity).
  destruct (str_mem (class p) _) eqn:E.
  - apply str_mem_spec in E. rewrite bool_decide_eq_true_2 by exact E. reflexivity.
  - rewrite bool_decide_eq_false_2; [reflexivity|].
    intros Hin. apply str_mem_spec in Hin. congruence.
Qed.

Lemma greeting_style_by_alignment_witness :
  _determine_interaction_style demo_elian "greeting" None = Ok "friendly".
Proof.
  destruct (greeting_style_by_alignment demo_elian None "Neutral" "Good" eq_refl)
    as [Hgood _].
  apply Hgood. reflexivity.
Defined.

(** ** Dialogue generation *)

Section Dialogue.

Lemma find_profile_absent (npcs : list Profile) (npc_name : string) :
  (forall p, In p npcs -> name p <> npc_name) -> find_profile npcs npc_name = None.
Proof.
  intros Habs. unfold find_profile.
  destruct (List.find _ npcs) as [p|] eqn:E; [|reflexivity].
  apply find_some in E as [Hin Heq]. apply String.eqb_eq in Heq.
  exfalso. eapply Habs; eassumption.
Qed.

Lemma find_profile_present (npcs : list Profile) (npc_name : string) (p : Profile) :
  find_profile npcs npc_name = Some p -> In p npcs /\ name p = npc_name.
Proof.
  intros E. apply find_some in E as [Hin Heq]. apply String.eqb_eq in Heq. auto.
Qed.

Lemma determine_mood_returns (p : Profile) (h : History) (pc : option string) :
  returns (_determine_mood p h pc) (fun m => In m moods).
Proof.
  assert (Hpick : forall (threshold : N) (m : string), In m moods ->
            returns (let* b := random_lt threshold in
                     if b then ret m else choice moods) (fun m => In m moods)).
  { intros threshold m Hm. eapply returns_bind; [apply returns_random_lt|].
    intros [] _; [apply returns_ret, Hm | apply returns_choice; discriminate]. }
  unfold _determine_mood. destruct (personality_traits p) as [|first others].
  - apply Hpick. simpl. tauto.
  - repeat match goal with
           | |- returns (if ?c then _ else _) _ => destruct c
           end;
      try (apply Hpick; simpl; tauto).
    apply returns_choice. discriminate.
Qed.

Lemma apply_mood_to_template (t mood : string) :
  exists pre, In pre mood_prefixes
              /\ _apply_mood_modifiers (Template t) mood = Ok (Template (pre +:+ t)).
Proof.
  unfold _apply_mood_modifiers. simpl assoc.
  repeat match goal with
         | |- context [String.eqb mood ?k] => destruct (String.eqb mood k)
         end;
    first [ exists EmptyString; split; [simpl; tauto | reflexivity]
          | eexists; split; [|reflexivity]; simpl; tauto ].
Qed.

Lemma fill_template_returns (t : string) (p : Profile) (context : string)
    (pc : option string) :
  returns (_fill_template (Template t) p context pc)
    (fun text => exists hesitation,
         In hesitation hesitations
         /\ text = replace_all (replacements p hesitation) t).
Proof.
  unfold _fill_template. eapply returns_bind.
  - apply returns_choice. discriminate.
  - intros hes Hin. apply returns_ret. exists hes. split; [exact Hin | reflexivity].
Qed.

Lemma preserves_fill_template (template : Entry) (p : Profile) (context : string)
    (pc : option string) :
  preserves_ledger (_fill_template template p context pc).
Proof.
  unfold _fill_template. apply preserves_bind.
  - eapply returns_preserves, returns_choice. discriminate.
  - intros hes. destruct template; auto with engine_effects.
Qed.

Lemma preserves_generate_dialogue (npc_name context : string) (h : History)
    (pc : option string) :
  preserves_ledger (generate_dialogue npc_name context h pc).
Proof.
  intros self. unfold ledger_after, generate_dialogue.
  destruct (find_profile (npc_profiles self) npc_name) as [p|]; [|reflexivity].
  apply preserves_bind; [auto with engine_effects|]. intros style.
  apply preserves_bind; [eapply returns_preserves, determine_mood_returns|].
  intros mood. apply preserves_bind; [auto with engine_effects|].
  intros template. apply preserves_fill_template.
Qed.

(** A known NPC whose style is found and names a template of the catalog
    gets a rendered line. *)
Lemma generate_dialogue_renders (self : Engine) (npc_name context : string)
    (h : History) (pc : option string) (p : Profile) (style t : string) :
  find_profile (npc_profiles self) npc_name = Some p ->
  _determine_interaction_style p context h = Ok style ->
  _select_template context style pc = Template t ->
  exists pre hesitation,
    In pre mood_prefixes /\ In hesitation hesitations
    /\ outcome (generate_dialogue npc_name context h pc) self
       = Ok (replace_all (replacements p hesitation) (pre +:+ t)).
Proof.
  intros Hfind Hstyle Htpl. unfold outcome, generate_dialogue.
  rewrite Hfind, Hstyle. unfold bind at 1, lift at 1. rewrite Htpl.
  destruct (determine_mood_returns p h pc self) as (mood & s1 & E1 & _).
  unfold bind at 1. rewrite E1.
  destruct (apply_mood_to_template t mood) as (pre & Hpre & E2).
  rewrite E2. unfold bind at 1, lift at 1.
  destruct (fill_template_returns (pre +:+ t) p context pc s1)
    as (text & s2 & E3 & (hes & Hhes & ->) & _).
  rewrite E3. simpl. exists pre, hes. auto.
Qed.

End Dialogue.

(** ** Response options *)

Section Sampling.

Context {A : Type}.

(** One round takes an element out of the pool: what is picked and what
    stays are together the pool it started from. *)
Lemma sample_step_spec (pool : list A) (j : nat) :
  (j < length pool)%nat ->
  exists x pool', sample_step pool j = Some (x, pool')
                  /\ Permutation (x :: pool') pool
                  /\ S (length pool') = length pool.
Proof.
  intros Hj. destruct (exists_last (l := pool)) as (init & z & ->).
  { intros ->. simpl in Hj. lia. }
  unfold sample_step. rewrite last_snoc.
  rewrite length_app in Hj. simpl in Hj.
  destruct (decide (j < length init)%nat) as [Hlt|Hge].
  - destruct (lookup_lt_is_Some_2 init j Hlt) as [x Hx].
    rewrite lookup_app_l, Hx by assumption.
    rewrite insert_app_l, removelast_last by assumption.
    exists x, (<[j:=z]> init). split; [reflexivity|]. split.
    + rewrite insert_take_drop by assumption.
      rewrite <- (take_drop_middle init j x Hx) at 3.
      generalize (take j init) (drop (S j) init). intros a b.
      rewrite <- app_assoc. simpl.
      rewrite <- !Permutation_middle. apply perm_skip.
      rewrite app_nil_r. reflexivity.
    + rewrite length_insert, length_app. simpl. lia.
  - assert (j = length init) as -> by lia.
    rewrite list_lookup_middle by reflexivity.
    rewrite list_insert_id by (apply list_lookup_middle; reflexivity).
    rewrite removelast_last.
    exists z, init. split; [reflexivity|]. split.
    + apply Permutation_cons_append.
    + rewrite length_app. simpl. lia.
Qed.

(** [k] rounds on a pool of at least [k] elements return [k] elements
    taken from distinct places of the pool. *)
Lemma sample_loop_returns (k : nat) (pool : list A) :
  (k <= length pool)%nat ->
  returns (sample_loop k pool)
    (fun l => length l = k /\ exists rest, Permutation (l ++ rest) pool).
Proof.
  revert pool. induction k as [|k IH]; intros pool Hk; simpl.
  - apply returns_ret. split; [reflexivity|]. exists pool. reflexivity.
  - eapply returns_bind; [apply returns_draw|]. intros r _.
    destruct (sample_step_spec pool (N.to_nat (r mod N.of_nat (length pool))))
      as (x & pool' & E & Hperm & Hlen).
    { pose proof (N.mod_lt r (N.of_nat (length pool))). lia. }
    rewrite E. eapply returns_bind; [apply (IH pool'); lia|].
    intros l [Hl [rest Hrest]]. apply returns_ret. split.
    + simpl. congruence.
    + exists rest. simpl. rewrite Hrest. exact Hperm.
Qed.

Lemma sample_returns (population : list A) (k : Z) :
  0 <= k <= Z.of_nat (length population) ->
  returns (sample population k)
    (fun l => Z.of_nat (length l) = k
              /\ exists rest, Permutation (l ++ rest) population).
Proof.
  intros Hk. unfold sample.
  replace ((0 <=? k) && (k <=? Z.of_nat (length population))) with true
    by (symmetry; apply andb_true_iff; lia).
  eapply returns_weaken; [apply sample_loop_returns; lia|].
  intros l [Hl Hrest]. split; [lia | exact Hrest].
Qed.

Lemma preserves_sample_loop (k : nat) (pool : list A) :
  preserves_ledger (sample_loop k pool).
Proof.
  revert pool. induction k as [|k IH]; intros pool; simpl.
  - apply preserves_ret.
  - apply preserves_bind; [eapply returns_preserves, returns_draw|].
    intros r. destruct (sample_step _ _) as [[x pool']|].
    + apply preserves_bind; [apply IH | intros; apply preserves_ret].
    + apply preserves_raise.
Qed.

Lemma preserves_sample (population : list A) (k : Z) :
  preserves_ledger (sample population k).
Proof.
  unfold sample. destruct (_ && _);
    [apply preserves_sample_loop | apply preserves_raise].
Qed.

End Sampling.

Section Options.

Lemma fill_options_returns (missing : nat) (options : list string) :
  returns (fill_options missing options)
    (fun l => exists fill, l = (options ++ fill)%list
                           /\ length fill = missing /\ Forall is_filler fill).
Proof.
  revert options. induction missing as [|m IH]; intros options; cbn [fill_options].
  - apply returns_ret. exists []. rewrite app_nil_r. auto.
  - eapply returns_bind; [apply returns_choice; discriminate|].
    intros phrase Hin. eapply returns_weaken; [apply IH|].
    intros l (fill & -> & Hlen & Hall). exists (filler phrase :: fill).
    unfold append. rewrite <- app_assoc. simpl. repeat split.
    + congruence.
    + constructor; [exists phrase; auto | exact Hall].
Qed.

Lemma get_player_nickname_returns (affinity : Z) :
  returns (_get_player_nickname affinity) (fun _ => True).
Proof.
  unfold _get_player_nickname.
  destruct (90 <? affinity); [|destruct (70 <? affinity)];
    try (eapply returns_weaken; [apply returns_choice; discriminate | auto]).
  apply returns_ret. exact I.
Qed.

Lemma build_options_returns (p : Profile) (context : string) (affinity : Z) (trust : Q) :
  alignment_words p <> [] \/ 40 <= affinity ->
  returns (build_options p context affinity trust) pool_size_ok.
Proof.
  intros Hal. unfold build_options.
  eapply returns_bind with (P := fun l => (length l <= 1)%nat
                                        /\ (length l = 1%nat -> 60 < affinity)).
  { destruct (60 <? affinity) eqn:E.
    - eapply returns_bind; [apply get_player_nickname_returns|].
      intros nick _. apply returns_ret. simpl. split; [lia|]. lia.
    - apply returns_ret. simpl. split; [lia|]. discriminate. }
  intros o1 [H1 H1'].
  eapply returns_bind with (P := fun l => (length l <= 1)%nat).
  { destruct (affinity <? 40) eqn:E.
    - assert (Hw : alignment_words p <> []) by (destruct Hal; [assumption | lia]).
      unfold _generate_cautious_response. fold (alignment_words p).
      destruct (alignment_words p) as [|w ws]; [congruence|]. simpl lookup.
      cbv iota beta.
      eapply returns_bind with (P := fun _ => True).
      { intros self. unfold lift.
        destruct (String.eqb w "Lawful"); [|destruct (String.eqb w "Chaotic")];
          eexists _, self; repeat split. }
      intros c _. apply returns_ret. unfold append. rewrite length_app. simpl.
      destruct o1 as [|? [|]]; simpl in *; lia.
    - apply returns_ret. exact H1. }
  intros o2 H2. apply returns_ret. unfold pool_size_ok, append.
  destruct (negb _); rewrite ?length_app; simpl; lia.
Qed.

Lemma preserves_build_options (p : Profile) (context : string) (affinity : Z) (trust : Q) :
  preserves_ledger (build_options p context affinity trust).
Proof.
  unfold build_options. apply preserves_bind.
  { destruct (60 <? affinity); [|apply preserves_ret].
    apply preserves_bind;
      [eapply returns_preserves, get_player_nickname_returns
      | intros; apply preserves_ret]. }
  intros o1. apply preserves_bind.
  { destruct (affinity <? 40); [|apply preserves_ret].
    apply preserves_bind; [apply preserves_lift | intros; apply preserves_ret]. }
  intros o2. apply preserves_ret.
Qed.

Lemma preserves_fill_options (missing : nat) (options : list string) :
  preserves_ledger (fill_options missing options).
Proof. eapply returns_preserves, fill_options_returns. Qed.

Lemma preserves_generate_response_options (npc_name context statement : string)
    (num_options : Z) :
  preserves_ledger (generate_response_options npc_name context statement num_options).
Proof.
  intros self. unfold ledger_after, generate_response_options.
  destruct (find_profile (npc_profiles self) npc_name) as [p|]; [|reflexivity].
  simpl. apply preserves_bind; [apply preserves_build_options|].
  intros options. destruct (num_options <? _);
    [apply preserves_sample | apply preserves_fill_options].
Qed.

End Options.

Section OptionsClaims.

Lemma relationship_read (states : gmap string RelState) (npc_name : string) :
  match states !! npc_name with
  | Some r => (affinity r, trust r)
  | None => (50, 50%Q)
  end
  = (affinity (current states npc_name), trust (current states npc_name)).
Proof. unfold current. destruct (states !! npc_name); reflexivity. Qed.

Lemma not_found_in_system_marker (npc_name : string) :
  PyStr.str_in npc_name (not_found_in_system npc_name) = true
  /\ PyStr.str_in "not found" (not_found_in_system npc_name) = true.
Proof.
  unfold not_found_in_system. split.
  - apply str_in_intro.
  - apply str_in_spec. exists ("[NPC '" +:+ npc_name +:+ "' "), " in system]".
    rewrite !string_app_assoc. reflexivity.
Qed.

Lemma not_found_marker (npc_name : string) :
  PyStr.str_in npc_name (not_found npc_name) = true
  /\ PyStr.str_in "not found" (not_found npc_name) = true.
Proof.
  unfold not_found. split.
  - apply str_in_intro.
  - apply str_in_spec. exists ("[NPC '" +:+ npc_name +:+ "' "), "]".
    rewrite !string_app_assoc. reflexivity.
Qed.

Lemma updated_differs (player_action context : string) (r : RelState) :
  updated player_action context r <> r.
Proof.
  intros E. apply (f_equal (fun x => length (interactions x))) in E.
  simpl in E. rewrite length_app in E. simpl in E. lia.
Qed.

End OptionsClaims.

(** C4, as the code has it.  For an NPC found in the profile store whose
    alignment has at least one word or whose affinity on record is at least
    40 (the cautious candidate, built below 40, reads the first alignment
    word), any context and statement and any requested count [n >= 0],
    [generate_response_options] returns exactly [n] strings.  The candidate
    pool is built from the affinity and trust on record (50/50 without a
    record); when it has more than [n] entries the result is [n] of them
    taken from distinct places of the pool, otherwise it is the pool
    followed by filler sentences. *)
Theorem response_options_count
    (self : Engine) (npc_name context statement : string) (n : Z) (p : Profile) :
  find_profile (npc_profiles self) npc_name = Some p ->
  alignment_words p <> []
  \/ 40 <= affinity (current (relationship_states self) npc_name) ->
  0 <= n ->
  exists pool options,
    outcome (build_options p context
               (affinity (current (relationship_states self) npc_name))
               (trust (current (relationship_states self) npc_name))) self
    = Ok pool
    /\ outcome (generate_response_options npc_name context statement n) self
       = Ok options
    /\ Z.of_nat (length options) = n
    /\ (n < Z.of_nat (length pool) ->
        exists rest, Permutation (options ++ rest)%list pool)
    /\ (Z.of_nat (length pool) <= n ->
        exists fill, options = (pool ++ fill)%list /\ Forall is_filler fill).
Proof.
  intros Hfind Hal Hn. unfold outcome, generate_response_options.
  rewrite Hfind, relationship_read. cbn [fst snd].
  destruct (build_options_returns p context
              (affinity (current (relationship_states self) npc_name))
              (trust (current (relationship_states self) npc_name))
              Hal self) as (pool & s1 & E & Hsize & _).
  exists pool. unfold bind. rewrite E. cbn [fst].
  destruct (n <? Z.of_nat (length pool)) eqn:Hcmp.
  - apply Z.ltb_lt in Hcmp.
    destruct (sample_returns pool n (conj Hn (Z.lt_le_incl _ _ Hcmp)) s1)
      as (l & s2 & E2 & [Hlen Hrest] & _).
    exists l. rewrite E2. repeat split; auto. intros; lia.
  - apply Z.ltb_ge in Hcmp.
    destruct (fill_options_returns (Z.to_nat (n - Z.of_nat (length pool))) pool s1)
      as (l & s2 & E2 & (fill & -> & Hlen & Hall) & _).
    exists (pool ++ fill)%list. rewrite E2. repeat split; auto.
    + rewrite length_app. lia.
    + intros; lia.
    + intros _. exists fill. auto.
Qed.

Lemma response_options_count_witness :
  exists pool options,
    outcome (build_options demo_elian "problem solving"
               (affinity (current (relationship_states demo_engine) "Dr. Elian Thaumatec"))
               (trust (current (relationship_states demo_engine) "Dr. Elian Thaumatec")))
            demo_engine
    = Ok pool
    /\ outcome (generate_response_options "Dr. Elian Thaumatec" "problem solving"
                  "We need to find a creative solution to this challenge" 3) demo_engine
       = Ok options
    /\ Z.of_nat (length options) = 3
    /\ (3 < Z.of_nat (length pool) ->
        exists rest, Permutation (options ++ rest)%list pool)
    /\ (Z.of_nat (length pool) <= 3 ->
        exists fill, options = (pool ++ fill)%list /\ Forall is_filler fill).
Proof.
  apply (response_options_count demo_engine "Dr. Elian Thaumatec" "problem solving"
           "We need to find a creative solution to this challenge" 3 demo_elian).
  - reflexivity.
  - left. vm_compute. discriminate.
  - lia.
Defined.

(** C4, as stated, fails: an NPC of the profile store whose alignment is
    blank is served while its affinity is 40 or more, but after two hostile
    updates its affinity is 30, the cautious candidate asks for the first
    alignment word, and the call for three options raises [IndexError]. *)
Lemma response_options_fail_on_blank_alignment :
  find_profile
    (npc_profiles (session (calls_for "Blip" [demo_hostile; demo_hostile])
                           (new_engine [demo_blank] demo_rng)).2) "Blip"
  = Some demo_blank
  /\ affinity (current (ledger_after (session (calls_for "Blip" [demo_hostile; demo_hostile]))
                                     (new_engine [demo_blank] demo_rng)) "Blip") = 30
  /\ outcome (generate_response_options "Blip" "greeting" "What now?" 3)
             (session (calls_for "Blip" [demo_hostile; demo_hostile])
                      (new_engine [demo_blank] demo_rng)).2
     = Raise IndexError.
Proof. repeat split; vm_compute; reflexivity. Qed.

(** C5.  For an NPC name that no profile of the store carries,
    [generate_dialogue] returns, without raising, a string that contains the
    name and the marker "not found", and [generate_response_options]
    returns [n] copies of one marker string; both leave the engine as it
    was and return the same whatever the ledger holds. *)
Theorem unknown_npc_sentinels
    (self : Engine) (npc_name context statement : string) (h : History)
    (pc : option string) (n : Z) :
  (forall p, In p (npc_profiles self) -> name p <> npc_name) ->
  generate_dialogue npc_name context h pc self
  = (Ok (not_found_in_system npc_name), self)
  /\ PyStr.str_in npc_name (not_found_in_system npc_name) = true
  /\ PyStr.str_in "not found" (not_found_in_system npc_name) = true
  /\ generate_response_options npc_name context statement n self
     = (Ok (repeat (not_found npc_name) (Z.to_nat n)), self)
  /\ (0 <= n -> Z.of_nat (length (repeat (not_found npc_name) (Z.to_nat n))) = n)
  /\ PyStr.str_in "not found" (not_found npc_name) = true
  /\ (forall states : gmap string RelState,
        outcome (generate_response_options npc_name context statement n)
                (set_relationship_states states self)
        = Ok (repeat (not_found npc_name) (Z.to_nat n))).
Proof.
  intros Habs. apply find_profile_absent in Habs.
  unfold generate_dialogue, generate_response_options, outcome. simpl npc_profiles.
  rewrite Habs.
  destruct (not_found_in_system_marker npc_name) as [H1 H2].
  destruct (not_found_marker npc_name) as [_ H3].
  repeat split; auto.
  intros Hn. rewrite repeat_length. lia.
Qed.

Lemma unknown_npc_sentinels_witness :
  generate_dialogue "Ghost" "greeting" None None demo_engine
  = (Ok "[NPC 'Ghost' not found in system]", demo_engine)
  /\ generate_response_options "Ghost" "greeting" "Who are you?" 3 demo_engine
     = (Ok ["[NPC 'Ghost' not found]"; "[NPC 'Ghost' not found]";
            "[NPC 'Ghost' not found]"], demo_engine).
Proof.
  destruct (unknown_npc_sentinels demo_engine "Ghost" "greeting" "Who are you?"
              None None 3) as (Hd & _ & _ & Ho & _).
  - intros p [<-|[]]. vm_compute. discriminate.
  - split; [exact Hd | exact Ho].
Defined.

(** C9.  [generate_dialogue] and [generate_response_options] leave the
    relationship ledger exactly as they found it, for any engine state, NPC
    name (known or not), context and other arguments, whether they return
    or raise; [update_player_relationship] does change it. *)
Theorem queries_leave_ledger
    (self : Engine) (npc_name context statement player_action : string)
    (h : History) (pc : option string) (n : Z) :
  ledger_after (generate_dialogue npc_name context h pc) self
  = relationship_states self
  /\ ledger_after (generate_response_options npc_name context statement n) self
     = relationship_states self
  /\ ledger_after (update_player_relationship npc_name player_action context) self
     <> relationship_states self.
Proof.
  split; [apply preserves_generate_dialogue|].
  split; [apply preserves_generate_response_options|].
  rewrite ledger_after_update. intros E.
  pose proof (update_ledger_same npc_name player_action context
                (relationship_states self)) as Hl.
  rewrite E in Hl. unfold current in Hl.
  destruct (relationship_states self !! npc_name) as [r|] eqn:Er; [|discriminate].
  simpl in Hl. injection Hl as Hl. symmetry in Hl.
  exact (updated_differs _ _ _ Hl).
Qed.

(** C10.  The greeting style selection returns a style exactly for the
    profiles whose alignment splits into at least two words: then the
    second word is within bounds, and [generate_dialogue] with the context
    "greeting" returns a line for a known NPC.  With a one-word or empty
    alignment the selection raises [IndexError], and so does the call. *)
Theorem greeting_total_on_two_words
    (self : Engine) (npc_name : string) (p : Profile) (h : History)
    (pc : option string) :
  ((2 <= length (alignment_words p))%nat ->
   (exists style, _determine_interaction_style p "greeting" h = Ok style)
   /\ (find_profile (npc_profiles self) npc_name = Some p ->
       exists text,
         outcome (generate_dialogue npc_name "greeting" h pc) self = Ok text))
  /\ ((length (alignment_words p) < 2)%nat ->
      _determine_interaction_style p "greeting" h = Raise IndexError
      /\ (find_profile (npc_profiles self) npc_name = Some p ->
          outcome (generate_dialogue npc_name "greeting" h pc) self
          = Raise IndexError)).
Proof.
  split.
  - intros Hlen.
    destruct (lookup_lt_is_Some_2 (alignment_words p) 1 Hlen) as [w Hw].
    assert (Hstyle : exists style,
               _determine_interaction_style p "greeting" h = Ok style
               /\ (style = "friendly" \/ style = "cautious")).
    { rewrite greeting_style_second_word, Hw.
      destruct (String.eqb w "Good"); eauto. }
    destruct Hstyle as (style & Hstyle & Hcases). split; [eauto|].
    intros Hfind.
    assert (Htpl : exists t, _select_template "greeting" style pc = Template t).
    { destruct Hcases as [-> | ->]; eexists; reflexivity. }
    destruct Htpl as [t Htpl].
    destruct (generate_dialogue_renders self npc_name "greeting" h pc p style t
                Hfind Hstyle Htpl) as (pre & hes & _ & _ & E).
    eauto.
  - intros Hlen.
    assert (Hstyle : _determine_interaction_style p "greeting" h = Raise IndexError).
    { rewrite greeting_style_second_word.
      rewrite (lookup_ge_None_2 (alignment_words p) 1) by lia. reflexivity. }
    split; [exact Hstyle|]. intros Hfind.
    unfold outcome, generate_dialogue. rewrite Hfind, Hstyle. reflexivity.
Qed.

Lemma greeting_total_on_two_words_witness :
  exists text,
    outcome (generate_dialogue "Dr. Elian Thaumatec" "greeting" None None) demo_engine
    = Ok text.
Proof.
  destruct (greeting_total_on_two_words demo_engine "Dr. Elian Thaumatec" demo_elian
              None None) as [Htwo _].
  destruct Htwo as [_ Hcall].
  - vm_compute. lia.
  - apply Hcall. reflexivity.
Defined.

(** ** Template renderer *)

Section Braces.

Lemma append_cons (c : ascii) (a b : string) : String c a +:+ b = String c (a +:+ b).
Proof. reflexivity. Qed.

Lemma has_open_brace_app (a b : string) :
  has_open_brace (a +:+ b) = has_open_brace a || has_open_brace b.
Proof.
  induction a as [|c a IH]; [reflexivity|].
  rewrite append_cons. simpl. rewrite IH, orb_assoc. reflexivity.
Qed.

Lemma has_open_brace_of_list (l : list ascii) :
  has_open_brace (string_of_list_ascii l) = existsb (fun c => Ascii.eqb c "{") l.
Proof. induction l as [|c l IH]; simpl; [reflexivity | rewrite IH; reflexivity]. Qed.

Lemma existsb_rev {A} (f : A -> bool) (l : list A) : existsb f (rev l) = existsb f l.
Proof.
  induction l as [|x l IH]; [reflexivity|]. simpl.
  rewrite existsb_app, IH. simpl. rewrite orb_false_r. apply orb_comm.
Qed.

Lemma str_in_brace (k s : string) :
  key_shape k = true -> PyStr.str_in k s = true -> has_open_brace s = true.
Proof.
  intros Hk Hin. apply str_in_spec in Hin as (pre & post & ->).
  destruct k as [|c body]; [discriminate|].
  apply andb_true_iff in Hk as [Hc _].
  rewrite !has_open_brace_app. simpl. rewrite Hc.
  rewrite orb_true_r. reflexivity.
Qed.

Lemma lstrip_brace_free (s : string) :
  has_open_brace s = false -> has_open_brace (PyStr.lstrip s) = false.
Proof.
  induction s as [|c s IH]; simpl; [reflexivity|]. intros H.
  apply orb_false_iff in H as [Hc Hs].
  destruct (PyStr.isspace c); [auto|]. simpl. rewrite Hc, Hs. reflexivity.
Qed.

Lemma rstrip_brace_free (s : string) :
  has_open_brace s = false -> has_open_brace (PyStr.rstrip s) = false.
Proof.
  induction s as [|c s IH]; simpl; [reflexivity|]. intros H.
  apply orb_false_iff in H as [Hc Hs]. specialize (IH Hs).
  destruct (PyStr.rstrip s) as [|d r].
  - destruct (PyStr.isspace c); simpl; [reflexivity|]. rewrite Hc. reflexivity.
  - simpl in *. rewrite Hc, IH. reflexivity.
Qed.

Lemma strip_brace_free (s : string) :
  has_open_brace s = false -> has_open_brace (PyStr.strip s) = false.
Proof. intros H. apply rstrip_brace_free, lstrip_brace_free, H. Qed.

Lemma split_on_brace_free (sep : ascii) (cur : list ascii) (s : string) :
  existsb (fun c => Ascii.eqb c "{") cur = false ->
  has_open_brace s = false ->
  Forall (fun piece => has_open_brace piece = false) (PyStr.split_on_aux sep cur s).
Proof.
  revert cur. induction s as [|c s IH]; intros cur Hcur Hs; simpl.
  - constructor; [|constructor].
    rewrite has_open_brace_of_list, existsb_rev. exact Hcur.
  - simpl in Hs. apply orb_false_iff in Hs as [Hc Hs].
    destruct (Ascii.eqb c sep).
    + constructor; [|apply IH; [reflexivity | exact Hs]].
      rewrite has_open_brace_of_list, existsb_rev. exact Hcur.
    + apply IH; [|exact Hs]. simpl. rewrite Hc, Hcur. reflexivity.
Qed.

Lemma nth_brace_free (i : nat) (pieces : list string) :
  Forall (fun piece => has_open_brace piece = false) pieces ->
  has_open_brace (nth i pieces EmptyString) = false.
Proof.
  intros Hall. revert i. induction Hall as [|x l Hx Hl IH]; intros [|i]; simpl; auto.
Qed.

Lemma intro_snippet_brace_free (p : Profile) :
  has_open_brace (backstory p) = false ->
  has_open_brace (_generate_intro_snippet p) = false.
Proof.
  intros Hb. unfold _generate_intro_snippet.
  pose proof (split_on_brace_free "." [] (backstory p) eq_refl Hb) as Hall.
  fold (PyStr.split_on "." (backstory p)) in Hall.
  destruct (negb _); [|reflexivity].
  destruct (2 <? _)%nat; rewrite has_open_brace_app.
  - rewrite strip_brace_free by (apply nth_brace_free, Hall). reflexivity.
  - rewrite nth_brace_free by exact Hall. reflexivity.
Qed.

End Braces.

Section Words.

Lemma append_empty_r (s : string) : s +:+ EmptyString = s.
Proof.
  induction s as [|c s IH]; [reflexivity|].
  rewrite append_cons, IH. reflexivity.
Qed.

(** A word: no blank in it. *)
Lemma split_reads_word (cur : list ascii) (w rest : string) :
  forallb (fun c => negb (PyStr.isspace c)) (list_ascii_of_string w) = true ->
  PyStr.split_ws_aux cur (w +:+ rest)
  = PyStr.split_ws_aux (rev (list_ascii_of_string w) ++ cur)%list rest.
Proof.
  revert cur. induction w as [|c w IH]; intros cur Hw; [reflexivity|].
  simpl in Hw. apply andb_true_iff in Hw as [Hc Hw]. apply negb_true_iff in Hc.
  rewrite append_cons. cbn [PyStr.split_ws_aux]. rewrite Hc, IH by exact Hw.
  simpl. rewrite <- app_assoc. reflexivity.
Qed.

(** Two words joined by one space are what [split()] finds. *)
Lemma split_two_words (w1 w2 : string) :
  w1 <> EmptyString -> w2 <> EmptyString ->
  forallb (fun c => negb (PyStr.isspace c)) (list_ascii_of_string w1) = true ->
  forallb (fun c => negb (PyStr.isspace c)) (list_ascii_of_string w2) = true ->
  PyStr.split (w1 +:+ " " +:+ w2) = [w1; w2].
Proof.
  intros Hn1 Hn2 Hw1 Hw2. unfold PyStr.split.
  assert (Hword : forall w, w <> EmptyString ->
            exists a l, (rev (list_ascii_of_string w) ++ [])%list = a :: l
                        /\ string_of_list_ascii (rev (a :: l)) = w).
  { intros w Hw. rewrite app_nil_r.
    destruct (rev (list_ascii_of_string w)) as [|a l] eqn:E.
    - apply (f_equal (@rev ascii)) in E. rewrite rev_involutive in E.
      destruct w; [congruence | discriminate].
    - exists a, l. split; [reflexivity|].
      rewrite <- E, rev_involutive. apply string_of_list_ascii_of_string. }
  rewrite split_reads_word by exact Hw1.
  destruct (Hword w1 Hn1) as (a1 & l1 & -> & E1).
  rewrite append_cons. cbn [PyStr.split_ws_aux].
  replace (PyStr.isspace " ") with true by reflexivity. rewrite E1.
  change (EmptyString +:+ w2) with w2.
  rewrite <- (append_empty_r w2) at 1. rewrite split_reads_word by exact Hw2.
  destruct (Hword w2 Hn2) as (a2 & l2 & -> & E2).
  cbn [PyStr.split_ws_aux]. rewrite E2. reflexivity.
Qed.

End Words.

Section IgnoringCase.

Lemma lower_app (a b : string) : PyStr.lower (a +:+ b) = PyStr.lower a +:+ PyStr.lower b.
Proof.
  induction a as [|c a IH]; [reflexivity|].
  rewrite append_cons. cbn [PyStr.lower]. rewrite append_cons, IH. reflexivity.
Qed.

Lemma lower_split (t a b : string) :
  PyStr.lower t = a +:+ b ->
  exists ta tb, t = ta +:+ tb /\ PyStr.lower ta = a /\ PyStr.lower tb = b.
Proof.
  revert t. induction a as [|c a IH]; intros t H.
  - exists EmptyString, t. auto.
  - destruct t as [|d t]; [discriminate|].
    rewrite append_cons in H. cbn [PyStr.lower] in H. injection H as Hc H.
    destruct (IH t H) as (ta & tb & -> & Ha & Hb).
    exists (String d ta), tb. cbn [PyStr.lower]. rewrite Hc, Ha. auto.
Qed.

(** The scorer's test [word in action.lower()] finds the words that occur
    in the action in any mix of cases. *)
Lemma keyword_occurs_ignoring_case (word action : string) :
  PyStr.str_in word (PyStr.lower action) = true
  <-> exists pre u post, action = pre +:+ u +:+ post /\ PyStr.lower u = word.
Proof.
  rewrite str_in_spec. split.
  - intros (a & b & H). apply lower_split in H as (pre & rest & -> & <- & H).
    apply lower_split in H as (u & post & -> & <- & _). eauto.
  - intros (pre & u & post & -> & <-). rewrite !lower_app. eauto.
Qed.

End IgnoringCase.

Section Replace.

Implicit Types key value : string.

Lemma startswith_needs_brace key (c : ascii) (s : string) :
  key_shape key = true ->
  Ascii.eqb c "{" = false -> PyStr.startswith key (String c s) = false.
Proof.
  intros Hkey Hc. destruct key as [|a body]; [discriminate|].
  apply andb_true_iff in Hkey as [Ha _].
  apply Ascii.eqb_eq in Ha. subst a. cbn [PyStr.startswith].
  rewrite Ascii.eqb_sym, Hc. reflexivity.
Qed.

(** Text that opens no placeholder is copied as it is. *)
Lemma replace_literal key value (a r : string) :
  key_shape key = true ->
  has_open_brace a = false ->
  PyStr.replace_aux key value 0 (a +:+ r) = a +:+ PyStr.replace_aux key value 0 r.
Proof.
  intros Hkey. induction a as [|c a IH]; intros Ha; [reflexivity|].
  simpl in Ha. apply orb_false_iff in Ha as [Hc Ha].
  rewrite !append_cons. cbn [PyStr.replace_aux].
  rewrite startswith_needs_brace by assumption. rewrite IH by exact Ha. reflexivity.
Qed.

Lemma replace_skips key value (a r : string) :
  PyStr.replace_aux key value (String.length a) (a +:+ r)
  = PyStr.replace_aux key value 0 r.
Proof.
  induction a as [|c a IH]; [reflexivity|].
  rewrite append_cons. cbn [PyStr.replace_aux String.length]. exact IH.
Qed.

(** The key itself is replaced by the value. *)
Lemma replace_own_hole key value (r : string) :
  key_shape key = true ->
  PyStr.replace_aux key value 0 (key +:+ r)
  = value +:+ PyStr.replace_aux key value 0 r.
Proof.
  intros Hkey.
  assert (Hs : PyStr.startswith key (key +:+ r) = true)
    by (apply startswith_spec; eauto).
  destruct key as [|c body]; [discriminate|].
  rewrite append_cons in *. cbn [PyStr.replace_aux]. rewrite Hs.
  cbn [String.length]. rewrite Nat.sub_succ, Nat.sub_0_r, replace_skips.
  reflexivity.
Qed.

Lemma mismatch_startswith key (k r : string) :
  mismatch key k = true -> PyStr.startswith key (k +:+ r) = false.
Proof.
  revert k. induction key as [|x key' IH]; intros k Hm; [discriminate|].
  destruct k as [|y k']; [discriminate|].
  rewrite append_cons. simpl in *.
  destruct (Ascii.eqb x y); [|reflexivity]. simpl. apply IH, Hm.
Qed.

(** Another key is copied as it is. *)
Lemma replace_other_hole key value (k r : string) :
  key_shape key = true ->
  key_shape k = true ->
  mismatch key k = true ->
  PyStr.replace_aux key value 0 (k +:+ r) = k +:+ PyStr.replace_aux key value 0 r.
Proof.
  intros Hkey Hk Hm. pose proof (mismatch_startswith key k r Hm) as Hs.
  destruct k as [|c kb]; [discriminate|].
  apply andb_true_iff in Hk as [_ Hkb]. apply negb_true_iff in Hkb.
  rewrite !append_cons in *. destruct key as [|kc kbody]; [discriminate|].
  cbn [PyStr.replace_aux]. rewrite Hs.
  rewrite replace_literal by assumption. reflexivity.
Qed.

End Replace.

Section Segments.

Variable K : list string.
Hypothesis K_ok : keys_ok K = true.

Lemma key_in_shape (k : string) : In k K -> key_shape k = true.
Proof.
  intros Hin. unfold keys_ok in K_ok. apply andb_true_iff in K_ok as [Hshape _].
  rewrite forallb_forall in Hshape. apply Hshape, Hin.
Qed.

Lemma keys_mismatch (k1 k2 : string) :
  In k1 K -> In k2 K -> k1 <> k2 -> mismatch k1 k2 = true.
Proof.
  intros H1 H2 Hne. unfold keys_ok in K_ok. apply andb_true_iff in K_ok as [_ Hpair].
  rewrite forallb_forall in Hpair. specialize (Hpair k1 H1).
  rewrite forallb_forall in Hpair. specialize (Hpair k2 H2).
  apply orb_true_iff in Hpair as [E|E]; [|exact E].
  apply String.eqb_eq in E. congruence.
Qed.

Lemma incl_drop_key (key : string) (R : list string) :
  incl R K -> incl (drop_key key R) K.
Proof.
  intros Hincl k Hin. unfold drop_key in Hin. apply filter_In in Hin as [Hin _]. auto.
Qed.

(** One [replace] pass acts on the segments: the holes of its key become
    the value, everything else stays. *)
Lemma replace_segments (key value : string) (R : list string) (segs : list segment) :
  In key K -> incl R K -> has_open_brace value = false ->
  forallb (segment_ok R) segs = true ->
  PyStr.replace key value (render_segments segs)
  = render_segments (List.map (subst_segment key value) segs)
  /\ forallb (segment_ok (drop_key key R)) (List.map (subst_segment key value) segs)
     = true.
Proof.
  intros Hkey HR Hv. unfold PyStr.replace.
  pose proof (key_in_shape key Hkey) as Hshape.
  induction segs as [|seg segs IH]; intros Hok; [split; reflexivity|].
  simpl in Hok. apply andb_true_iff in Hok as [Hseg Hok].
  destruct (IH Hok) as [IHr IHo]. destruct seg as [a|k]; simpl in *.
  - apply negb_true_iff in Hseg.
    rewrite replace_literal, IHr by assumption. rewrite Hseg, IHo. auto.
  - apply str_mem_spec in Hseg. destruct (String.eqb_spec k key) as [->|Hne].
    + rewrite replace_own_hole, IHr by assumption. simpl.
      rewrite Hv, IHo. auto.
    + rewrite replace_other_hole, IHr;
        [| assumption | apply key_in_shape, HR, Hseg
         | apply keys_mismatch; auto; congruence].
      simpl. rewrite IHo, andb_true_r. split; [reflexivity|].
      apply str_mem_spec. unfold drop_key. apply filter_In. split; [exact Hseg|].
      apply negb_true_iff, String.eqb_neq, Hne.
Qed.

(** The whole [for key, value in replacements.items()] loop. *)
Lemma replace_all_segments (items : list (string * string)) (R : list string)
    (segs : list segment) :
  Forall (fun kv => In kv.1 K /\ has_open_brace kv.2 = false) items ->
  incl R K ->
  forallb (segment_ok R) segs = true ->
  exists segs',
    replace_all items (render_segments segs) = render_segments segs'
    /\ forallb (segment_ok (remaining items R)) segs' = true.
Proof.
  intros Hitems. revert R segs.
  induction Hitems as [|[key value] items [Hkey Hv] Hitems IH]; intros R segs HR Hok.
  - exists segs. auto.
  - simpl in Hkey, Hv.
    destruct (replace_segments key value R segs Hkey HR Hv Hok) as [E Hok'].
    destruct (IH (drop_key key R) _ (incl_drop_key key R HR) Hok') as (segs' & E' & Hfin).
    exists segs'. simpl. rewrite E. auto.
Qed.

End Segments.

Section Rendering.

Lemma render_without_holes (segs : list segment) :
  forallb (segment_ok []) segs = true ->
  has_open_brace (render_segments segs) = false.
Proof.
  induction segs as [|[a|k] segs IH]; simpl; intros Hok; [reflexivity| |].
  - apply andb_true_iff in Hok as [Ha Hok]. apply negb_true_iff in Ha.
    rewrite has_open_brace_app, Ha, IH by exact Hok. reflexivity.
  - discriminate.
Qed.

Lemma assoc_In {V} (k : string) (d : list (string * V)) (v : V) :
  assoc k d = Some v -> In (k, v) d.
Proof.
  induction d as [|[k' v'] d IH]; simpl; [discriminate|].
  destruct (String.eqb_spec k k') as [->|_].
  - intros [= ->]. left. reflexivity.
  - intros H. right. apply IH, H.
Qed.

(** Every template of the catalog is read back by its segments, and each
    of its placeholders is a key of [replacements]. *)
Lemma catalog_templates_ok (context style t : string) (styles : list (string * Entry)) :
  assoc context prompt_templates = Some styles ->
  assoc style styles = Some (Template t) ->
  template_ok t = true.
Proof.
  intros Hc Hs. apply assoc_In in Hc. apply assoc_In in Hs.
  unfold prompt_templates in Hc. simpl in Hc.
  repeat (destruct Hc as [Hc|Hc]; [injection Hc as <- <-|]); [..|destruct Hc];
    simpl in Hs;
    repeat (destruct Hs as [Hs|Hs];
            [first [discriminate Hs | injection Hs as <- <-; vm_compute; reflexivity]|]);
    destruct Hs.
Qed.

Lemma replacements_in_order (p : Profile) (hesitation : string) :
  brace_free_profile p ->
  In hesitation hesitations ->
  Forall (fun kv => In kv.1 placeholder_keys /\ has_open_brace kv.2 = false)
         (replacements p hesitation).
Proof.
  intros (Hn & Hc & Ha & Hb) Hhes. unfold replacements.
  repeat (constructor; [split; [simpl; tauto | cbn [snd]]|]); try constructor;
    try assumption; try reflexivity.
  - rewrite !has_open_brace_app, Ha, intro_snippet_brace_free by exact Hb. reflexivity.
  - simpl in Hhes. destruct Hhes as [<-|[<-|[<-|[]]]]; reflexivity.
Qed.

(** Filling a catalog template, behind any mood prefix, leaves no opening
    brace when the substituted texts have none. *)
Lemma filled_template_brace_free (p : Profile) (hesitation pre t : string) :
  template_ok t = true ->
  In pre mood_prefixes ->
  brace_free_profile p ->
  In hesitation hesitations ->
  has_open_brace (replace_all (replacements p hesitation) (pre +:+ t)) = false.
Proof.
  intros Ht Hpre Hp Hhes. unfold template_ok in Ht.
  apply andb_true_iff in Ht as [Hread Hsegs]. apply String.eqb_eq in Hread.
  set (segs := parse_template false [] t) in *.
  assert (Hall : forallb (segment_ok placeholder_keys) (Lit pre :: segs) = true).
  { simpl. rewrite Hsegs, andb_true_r.
    simpl in Hpre. destruct Hpre as [<-|[<-|[<-|[<-|[<-|[]]]]]]; reflexivity. }
  destruct (replace_all_segments placeholder_keys eq_refl
              (replacements p hesitation) placeholder_keys (Lit pre :: segs)
              (replacements_in_order p hesitation Hp Hhes)
              (incl_refl _) Hall) as (segs' & E & Hfin).
  simpl render_segments in E. rewrite Hread in E. rewrite E.
  apply render_without_holes. exact Hfin.
Qed.

End Rendering.

Section RenderingClaims.

Lemma select_catalog_template (context style t : string) (styles : list (string * Entry))
    (pc : option string) :
  assoc context prompt_templates = Some styles ->
  assoc style styles = Some (Template t) ->
  _select_template context style pc = Template t.
Proof. intros Hc Hs. unfold _select_template. rewrite Hc, Hs. reflexivity. Qed.

(** What [render] returns for a template string. *)
Lemma render_returns (self : Engine) (context style mood t : string) (p : Profile)
    (pc : option string) :
  _select_template context style pc = Template t ->
  exists pre hesitation,
    In pre mood_prefixes /\ In hesitation hesitations
    /\ outcome (render context style mood p pc) self
       = Ok (replace_all (replacements p hesitation) (pre +:+ t)).
Proof.
  intros Htpl. unfold outcome, render. rewrite Htpl.
  destruct (apply_mood_to_template t mood) as (pre & Hpre & E).
  rewrite E. unfold bind at 1, lift at 1.
  destruct (fill_template_returns (pre +:+ t) p context pc self)
    as (text & s1 & E1 & (hes & Hhes & ->) & _).
  rewrite E1. exists pre, hes. auto.
Qed.

(** The line [generate_dialogue] returns for a known NPC with a
    catalog template opens no placeholder either. *)
Lemma generate_dialogue_brace_free (self : Engine) (npc_name context : string)
    (h : History) (pc : option string) (p : Profile) (style t : string)
    (styles : list (string * Entry)) :
  find_profile (npc_profiles self) npc_name = Some p ->
  _determine_interaction_style p context h = Ok style ->
  assoc context prompt_templates = Some styles ->
  assoc style styles = Some (Template t) ->
  brace_free_profile p ->
  exists text,
    outcome (generate_dialogue npc_name context h pc) self = Ok text
    /\ has_open_brace text = false.
Proof.
  intros Hfind Hstyle Hc Hs Hp.
  destruct (generate_dialogue_renders self npc_name context h pc p style t Hfind Hstyle
              (select_catalog_template context style t styles pc Hc Hs))
    as (pre & hes & Hpre & Hhes & E).
  eexists. split; [exact E|].
  apply filled_template_brace_free; auto.
  eapply catalog_templates_ok; eassumption.
Qed.

End RenderingClaims.

(** C8, as the code has it.  For every (context, style) pair of the template
    catalog, every mood and every profile whose name, class, alignment and
    backstory contain no opening brace, rendering returns a text without any
    opening brace, hence without any placeholder token: each placeholder of
    each catalog template is a key of [replacements] and is substituted. *)
Theorem rendering_resolves_placeholders
    (self : Engine) (context style mood t : string) (styles : list (string * Entry))
    (p : Profile) (pc : option string) :
  assoc context prompt_templates = Some styles ->
  assoc style styles = Some (Template t) ->
  brace_free_profile p ->
  exists text,
    outcome (render context style mood p pc) self = Ok text
    /\ has_open_brace text = false
    /\ (forall key, In key placeholder_keys -> PyStr.str_in key text = false)
    /\ forallb (segment_ok placeholder_keys) (parse_template false [] t) = true
    /\ List.map fst (replacements p EmptyString) = placeholder_keys.
Proof.
  intros Hc Hs Hp.
  pose proof (catalog_templates_ok context style t styles Hc Hs) as Hok.
  destruct (render_returns self context style mood t p pc
              (select_catalog_template context style t styles pc Hc Hs))
    as (pre & hes & Hpre & Hhes & E).
  eexists. split; [exact E|].
  assert (Hfree : has_open_brace (replace_all (replacements p hes) (pre +:+ t)) = false)
    by (apply filled_template_brace_free; auto).
  split; [exact Hfree|]. split; [|split].
  - intros key Hkey.
    destruct (PyStr.str_in key _) eqn:Hin; [|reflexivity].
    apply str_in_brace in Hin; [congruence|].
    apply (key_in_shape placeholder_keys eq_refl), Hkey.
  - unfold template_ok in Hok. apply andb_true_iff in Hok as [_ Hok]. exact Hok.
  - reflexivity.
Qed.

Lemma rendering_resolves_placeholders_witness :
  exists text,
    outcome (render "greeting" "cautious" "sad" demo_elian None) demo_engine = Ok text
    /\ has_open_brace text = false.
Proof.
  destruct (rendering_resolves_placeholders demo_engine "greeting" "cautious" "sad"
              "Hmm... {hesitation} I'm {npc_name}. {custom_intro}"
              _ demo_elian None eq_refl eq_refl) as (text & E & Hfree & _).
  - vm_compute. repeat split; reflexivity.
  - exists text. split; assumption.
Defined.

(** C8, as stated, fails: a profile whose name is the text "{npc_name}" has
    it substituted for the placeholder, and the greeting rendered in the
    catalog's "friendly" style contains "{npc_name}". *)
Lemma placeholder_text_survives :
  (exists styles,
     assoc "greeting" prompt_templates = Some styles
     /\ assoc "friendly" styles
        = Some (Template "Hello! Great to see you here! I'm {npc_name}. {custom_intro}"))
  /\ outcome (render "greeting" "friendly" "happy" demo_braces None) demo_engine
     = Ok "[expansive and enthusiastic] Hello! Great to see you here! I'm {npc_name}. I am Lawful Good and I have a story to tell."
  /\ PyStr.str_in "{npc_name}"
       "[expansive and enthusiastic] Hello! Great to see you here! I'm {npc_name}. I am Lawful Good and I have a story to tell."
     = true.
Proof.
  split; [eexists; split; reflexivity|].
  split; vm_compute; reflexivity.
Qed.

(** * Further properties of the engine *)

(** ** The ledger over a session *)

Section LedgerSessions.

Lemma analyze_even (text : string) :
  exists k, -5 <= k <= 5 /\ _analyze_player_action text = 2 * k.
Proof.
  rewrite analyze_by_hits.
  set (d := keyword_hits positive_keywords text - keyword_hits negative_keywords text).
  exists (Z.max (-5) (Z.min 5 d)).
  replace (2 * keyword_hits positive_keywords text
           - 2 * keyword_hits negative_keywords text) with (2 * d) by (subst d; lia).
  lia.
Qed.

Lemma run_updates_log (calls : list (string * string * string))
    (states : gmap string RelState) (npc_name : string) :
  interactions (current (run_updates calls states) npc_name)
  = (interactions (current states npc_name) ++ log_of npc_name calls)%list.
Proof.
  revert states. induction calls as [|[[n a] c] calls IH]; intros states.
  - unfold log_of. simpl. rewrite app_nil_r. reflexivity.
  - simpl run_updates. rewrite IH. unfold log_of. simpl List.filter.
    destruct (String.eqb_spec n npc_name) as [->|Hne].
    + rewrite current_update_same. simpl. rewrite <- app_assoc. reflexivity.
    + rewrite current_update_other by congruence. reflexivity.
Qed.

Lemma update_ledger_is_Some (npc_name other player_action context : string)
    (states : gmap string RelState) :
  is_Some (update_ledger npc_name player_action context states !! other)
  <-> is_Some (states !! other) \/ other = npc_name.
Proof.
  destruct (decide (other = npc_name)) as [->|Hne].
  - rewrite update_ledger_same. split; [auto | eauto].
  - rewrite update_ledger_other by assumption. split; [auto | intros [H|H]; [exact H | congruence]].
Qed.

Lemma run_updates_is_Some (calls : list (string * string * string))
    (states : gmap string RelState) (npc_name : string) :
  is_Some (run_updates calls states !! npc_name)
  <-> is_Some (states !! npc_name) \/ In npc_name (names_of calls).
Proof.
  revert states. induction calls as [|[[n a] c] calls IH]; intros states; simpl.
  - tauto.
  - rewrite IH, update_ledger_is_Some. intuition congruence.
Qed.

End LedgerSessions.

(** X1.  After a session the interaction log of an NPC is its log before
    the session followed by one record per call that names it, in call
    order, each holding the call's action, context and score; and an NPC
    has a ledger entry afterwards exactly when it had one before or some
    call named it. *)
Theorem session_log_is_call_history
    (calls : list (string * string * string)) (self : Engine) (npc_name : string) :
  interactions (current (ledger_after (session calls) self) npc_name)
  = (interactions (current (relationship_states self) npc_name)
       ++ log_of npc_name calls)%list
  /\ (is_Some (ledger_after (session calls) self !! npc_name)
      <-> is_Some (relationship_states self !! npc_name)
          \/ In npc_name (names_of calls)).
Proof.
  rewrite ledger_after_session. split;
    [apply run_updates_log | apply run_updates_is_Some].
Qed.

Section ReachableEntries.

Lemma whole_proper (t u : Q) : (t == u)%Q -> whole t -> whole u.
Proof. intros E [z Hz]. exists z. rewrite <- E. exact Hz. Qed.

Lemma whole_inject (z : Z) : whole (inject_Z z).
Proof. exists z. reflexivity. Qed.

Lemma whole_clamp (t : Q) : whole t -> whole (Qmax 0 (Qmin 100 t)).
Proof.
  intros Ht.
  destruct (Q.max_spec 0 (Qmin 100 t)) as [[_ E]|[_ E]];
    (eapply whole_proper; [symmetry; exact E|]).
  - destruct (Q.min_spec 100 t) as [[_ E']|[_ E']];
      (eapply whole_proper; [symmetry; exact E'|]).
    + apply (whole_inject 100).
    + exact Ht.
  - apply (whole_inject 0).
Qed.

Lemma whole_step (t : Q) (text : string) :
  whole t -> whole (t + inject_Z (_analyze_player_action text) * half).
Proof.
  intros [z Hz]. destruct (analyze_even text) as (k & _ & ->).
  exists (z + k). rewrite Hz, !inject_Z_plus, inject_Z_mult. unfold half.
  change (inject_Z 2) with 2%Q. field.
Qed.

Lemma updated_invariant (player_action context : string) (r : RelState) :
  whole (trust r) ->
  Forall (fun i => -10 <= sentiment i <= 10 /\ Z.even (sentiment i) = true)
         (interactions r) ->
  entry_invariant (updated player_action context r).
Proof.
  intros Hw Hall. split; [apply updated_in_range|]. split; [|split].
  - simpl. apply whole_clamp, whole_step, Hw.
  - simpl. destruct (interactions r); discriminate.
  - simpl. apply Forall_app. split; [exact Hall|]. constructor; [|constructor].
    simpl. split; [apply analyze_range|].
    destruct (analyze_even player_action) as (k & _ & ->).
    rewrite Z.even_mul. reflexivity.
Qed.

Lemma update_ledger_invariant (npc_name player_action context : string)
    (states : gmap string RelState) :
  ledger_invariant states ->
  ledger_invariant (update_ledger npc_name player_action context states).
Proof.
  intros Hinv other r Hl. destruct (decide (other = npc_name)) as [->|Hne].
  - rewrite update_ledger_same in Hl. injection Hl as <-.
    unfold current. destruct (states !! npc_name) as [r0|] eqn:E; simpl.
    + destruct (Hinv _ _ E) as (_ & Hw & _ & Hall). apply updated_invariant; assumption.
    + apply updated_invariant; [apply (whole_inject 50) | constructor].
  - rewrite update_ledger_other in Hl by assumption. eapply Hinv, Hl.
Qed.

Lemma run_updates_invariant (calls : list (string * string * string))
    (states : gmap string RelState) :
  ledger_invariant states -> ledger_invariant (run_updates calls states).
Proof.
  revert states. induction calls as [|c calls IH]; intros states Hinv; simpl.
  - exact Hinv.
  - apply IH, update_ledger_invariant, Hinv.
Qed.

End ReachableEntries.

(** X2.  Every entry of a ledger reached from a new engine by any session
    has affinity and trust within [0,100], a trust that is a whole number
    (the score is even, so half of it adds no fraction), at least one logged
    interaction, and only even scores within [-10,10] in its log. *)
Theorem reachable_entries_are_whole
    (npcs : list Profile) (g : Rng) (calls : list (string * string * string))
    (npc_name : string) (r : RelState) :
  ledger_after (session calls) (new_engine npcs g) !! npc_name = Some r ->
  entry_invariant r.
Proof.
  rewrite ledger_after_session. simpl relationship_states. intros Hl.
  eapply (run_updates_invariant calls empty_ledger); [|exact Hl].
  intros n r0 H. unfold empty_ledger in H. rewrite lookup_empty in H. discriminate.
Qed.

Lemma reachable_entries_are_whole_witness :
  entry_invariant
    {| affinity := 52; trust := 102 # 2;
       interactions := [record_of "helping solve a difficult problem" "cooperative mission"] |}.
Proof.
  apply (reachable_entries_are_whole [] demo_rng
           [("Blip", "helping solve a difficult problem", "cooperative mission")] "Blip").
  vm_compute. reflexivity.
Defined.

Section OneUpdate.

Lemma clampQ_spec (x : Q) :
  ((x <= 0 /\ Qmax 0 (Qmin 100 x) == 0)
   \/ (0 <= x /\ x <= 100 /\ Qmax 0 (Qmin 100 x) == x)
   \/ (100 <= x /\ Qmax 0 (Qmin 100 x) == 100))%Q.
Proof.
  destruct (Q.min_spec 100 x) as [[H1 E1]|[H1 E1]];
    destruct (Q.max_spec 0 (Qmin 100 x)) as [[H2 E2]|[H2 E2]];
    rewrite E1 in *; rewrite E2.
  - right. right. split; [lra | reflexivity].
  - exfalso. lra.
  - right. left. repeat split; try lra.
  - left. split; [exact H2 | reflexivity].
Qed.

End OneUpdate.



(** X4.  Updates of two different NPCs commute: the ledger after both does
    not depend on which came first. *)
Theorem updates_of_different_npcs_commute
    (self : Engine) (n1 a1 c1 n2 a2 c2 : string) :
  n1 <> n2 ->
  ledger_after (session [(n1, a1, c1); (n2, a2, c2)]) self
  = ledger_after (session [(n2, a2, c2); (n1, a1, c1)]) self.
Proof.
  intros Hne. rewrite !ledger_after_session. simpl.
  apply map_eq. intros k.
  destruct (decide (k = n1)) as [->|H1]; [|destruct (decide (k = n2)) as [->|H2]].
  - rewrite update_ledger_other by exact Hne.
    rewrite !update_ledger_same. unfold current.
    rewrite update_ledger_other by exact Hne. reflexivity.
  - rewrite update_ledger_same.
    rewrite (update_ledger_other n1 n2) by congruence.
    rewrite update_ledger_same. unfold current.
    rewrite update_ledger_other by congruence. reflexivity.
  - rewrite !update_ledger_other by assumption. reflexivity.
Qed.

Lemma updates_of_different_npcs_commute_witness :
  ledger_after (session [("Blip", "help", "a"); ("Mira Lumina", "steal", "b")])
               (new_engine [] demo_rng)
  = ledger_after (session [("Mira Lumina", "steal", "b"); ("Blip", "help", "a")])
                 (new_engine [] demo_rng).
Proof.
  apply updates_of_different_npcs_commute. vm_compute. discriminate.
Defined.

Section FewUpdates.

Lemma few_updates_aux (npc_name : string) (acts : list (string * string)) :
  forall (states : gmap string RelState) (b : Z),
    b = 5 * Z.of_nat (length acts) ->
    2 * b <= affinity (current states npc_name) <= 100 - 2 * b ->
    (inject_Z b <= trust (current states npc_name))%Q ->
    (trust (current states npc_name) <= 100 - inject_Z b)%Q ->
    affinity (current (run_updates (calls_for npc_name acts) states) npc_name)
    = affinity (current states npc_name) + total_score acts
    /\ (trust (current (run_updates (calls_for npc_name acts) states) npc_name)
        == trust (current states npc_name) + inject_Z (total_score acts) * half)%Q.
Proof.
  induction acts as [|[a c] acts IH]; intros states b Hb Haff Ht0 Ht1.
  - simpl. split; [lia|]. unfold half. change (inject_Z 0) with 0%Q. lra.
  - simpl length in Hb. simpl calls_for. simpl run_updates. simpl total_score.
    set (s := _analyze_player_action a).
    pose proof (analyze_range a) as Hs. fold s in Hs.
    assert (HsQ : (-10 <= inject_Z s /\ inject_Z s <= 10)%Q).
    { split; [change (-10)%Q with (inject_Z (-10)) | change 10%Q with (inject_Z 10)];
        rewrite <- Zle_Qle; lia. }
    assert (HbQ : (inject_Z b == inject_Z (b - 5) + 5)%Q).
    { replace b with ((b - 5) + 5) at 1 by lia. rewrite inject_Z_plus. reflexivity. }
    assert (Hb0 : (0 <= inject_Z (b - 5))%Q).
    { change 0%Q with (inject_Z 0). rewrite <- Zle_Qle. lia. }
    pose proof (current_update_same npc_name a c states) as Hcur.
    set (states' := update_ledger npc_name a c states) in *.
    assert (Haff' : affinity (current states' npc_name)
                    = affinity (current states npc_name) + s).
    { rewrite Hcur. simpl. fold s. lia. }
    assert (Ht' : (trust (current states' npc_name)
                   == trust (current states npc_name) + inject_Z s * half)%Q).
    { rewrite Hcur. simpl. fold s. unfold half.
      destruct (clampQ_spec (trust (current states npc_name) + inject_Z s * (1 # 2)))
        as [[H1 E]|[(H1 & H2 & E)|[H1 E]]]; rewrite E; lra. }
    destruct (IH states' (b - 5)) as [IHa IHt].
    + lia.
    + rewrite Haff'. lia.
    + rewrite Ht'. unfold half. lra.
    + rewrite Ht'. unfold half. lra.
    + split.
      * rewrite IHa, Haff'. lia.
      * rewrite IHt, Ht', inject_Z_plus. unfold half. lra.
Qed.

End FewUpdates.

(** X5.  While no clamp can bite, the metrics are plain sums: for an NPC
    without a ledger entry and at most five updates, the affinity is 50 plus
    the sum of the scores and the trust is 50 plus half that sum; so trust
    then moves at exactly half the rate of affinity. *)
Theorem few_updates_add_up
    (self : Engine) (npc_name : string) (acts : list (string * string)) :
  relationship_states self !! npc_name = None ->
  (length acts <= 5)%nat ->
  let after := current (ledger_after (session (calls_for npc_name acts)) self) npc_name in
  affinity after = 50 + total_score acts
  /\ (trust after == 50 + inject_Z (total_score acts) * half)%Q.
Proof.
  intros Hnone Hlen after. subst after. rewrite ledger_after_session.
  assert (Hcur : current (relationship_states self) npc_name = initial_relationship)
    by (unfold current; rewrite Hnone; reflexivity).
  destruct (few_updates_aux npc_name acts (relationship_states self)
              (5 * Z.of_nat (length acts)) eq_refl) as [Ha Ht].
  - rewrite Hcur. simpl. lia.
  - rewrite Hcur. simpl.
    change 50%Q with (inject_Z 50). rewrite <- Zle_Qle. lia.
  - rewrite Hcur. simpl.
    assert (inject_Z (5 * Z.of_nat (length acts)) <= inject_Z 25)%Q
      by (rewrite <- Zle_Qle; lia).
    change (inject_Z 25) with 25%Q in *. lra.
  - rewrite Hcur in Ha, Ht. exact (conj Ha Ht).
Qed.

Lemma few_updates_add_up_witness :
  affinity (current (ledger_after
                       (session (calls_for "Blip" [("help and protect", "a"); ("steal", "b")]))
                       (new_engine [] demo_rng)) "Blip")
  = 50 + total_score [("help and protect", "a"); ("steal", "b")].
Proof.
  apply (few_updates_add_up (new_engine [] demo_rng) "Blip"
           [("help and protect", "a"); ("steal", "b")]).
  - reflexivity.
  - simpl. lia.
Defined.

(** X6.  No operation changes the profile store, and the ledger plays no
    part in recognising an NPC: a name that no profile carries stays
    unknown through any session, even one that updates that very name and
    so gives it a ledger entry; both queries keep answering with the
    not-found sentinels. *)
Theorem unknown_npc_stays_unknown
    (self : Engine) (calls : list (string * string * string))
    (npc_name context statement : string) (h : History) (pc : option string) (n : Z) :
  (forall p, In p (npc_profiles self) -> name p <> npc_name) ->
  let self' := (session calls self).2 in
  npc_profiles self' = npc_profiles self
  /\ generate_dialogue npc_name context h pc self'
     = (Ok (not_found_in_system npc_name), self')
  /\ generate_response_options npc_name context statement n self'
     = (Ok (repeat (not_found npc_name) (Z.to_nat n)), self')
  /\ (In npc_name (names_of calls) -> is_Some (relationship_states self' !! npc_name)).
Proof.
  intros Habs self'. subst self'. rewrite session_run_updates. cbn [snd].
  apply find_profile_absent in Habs.
  split; [reflexivity|].
  unfold generate_dialogue, generate_response_options. simpl npc_profiles.
  rewrite Habs. split; [reflexivity|]. split; [reflexivity|].
  intros Hin. simpl relationship_states. apply run_updates_is_Some. auto.
Qed.

Lemma unknown_npc_stays_unknown_witness :
  generate_dialogue "Ghost" "greeting" None None
    (session [("Ghost", "help", "a")] demo_engine).2
  = (Ok (not_found_in_system "Ghost"), (session [("Ghost", "help", "a")] demo_engine).2)
  /\ is_Some (relationship_states (session [("Ghost", "help", "a")] demo_engine).2
                !! "Ghost").
Proof.
  destruct (unknown_npc_stays_unknown demo_engine [("Ghost", "help", "a")] "Ghost"
              "greeting" "x" None None 3) as (_ & Hd & _ & Hentry).
  - intros p [<-|[]]. vm_compute. discriminate.
  - split; [exact Hd|]. apply Hentry. simpl. auto.
Defined.

(** ** Rendered lines *)

Section ExplicitFill.

Variable K : list string.
Hypothesis K_ok : keys_ok K = true.

(** One pass, when the value need only be free of braces if a hole waits
    for its key. *)
Lemma replace_segments_waiting (key value : string) (R : list string)
    (segs : list segment) :
  In key K -> incl R K ->
  (In key R -> has_open_brace value = false) ->
  forallb (segment_ok R) segs = true ->
  PyStr.replace key value (render_segments segs)
  = render_segments (List.map (subst_segment key value) segs)
  /\ forallb (segment_ok (drop_key key R)) (List.map (subst_segment key value) segs)
     = true.
Proof.
  intros Hkey HR Hv. unfold PyStr.replace.
  pose proof (key_in_shape K K_ok key Hkey) as Hshape.
  induction segs as [|seg segs IH]; intros Hok; [split; reflexivity|].
  simpl in Hok. apply andb_true_iff in Hok as [Hseg Hok].
  destruct (IH Hok) as [IHr IHo]. destruct seg as [a|k]; simpl in *.
  - apply negb_true_iff in Hseg.
    rewrite replace_literal, IHr by assumption. rewrite Hseg, IHo. auto.
  - apply str_mem_spec in Hseg. destruct (String.eqb_spec k key) as [->|Hne].
    + rewrite replace_own_hole, IHr by assumption. simpl.
      rewrite (Hv Hseg), IHo. auto.
    + rewrite replace_other_hole, IHr;
        [| assumption | apply (key_in_shape K K_ok), HR, Hseg
         | apply (keys_mismatch K K_ok); auto; congruence].
      simpl. rewrite IHo, andb_true_r. split; [reflexivity|].
      apply str_mem_spec. unfold drop_key. apply filter_In. split; [exact Hseg|].
      apply negb_true_iff, String.eqb_neq, Hne.
Qed.

(** The loop of [_fill_template], with its result spelled out. *)
Lemma replace_all_explicit (items : list (string * string)) :
  forall (R : list string) (segs : list segment),
    Forall (fun kv => In kv.1 K /\ (In kv.1 R -> has_open_brace kv.2 = false)) items ->
    incl R K ->
    forallb (segment_ok R) segs = true ->
    replace_all items (render_segments segs) = render_segments (subst_all items segs).
Proof.
  induction items as [|[key value] items IH]; intros R segs Hitems HR Hok.
  - reflexivity.
  - inversion Hitems as [|? ? [Hkey Hv] Hrest]; subst. simpl in Hkey, Hv.
    destruct (replace_segments_waiting key value R segs Hkey HR Hv Hok) as [E Hok'].
    simpl. rewrite E. apply (IH (drop_key key R)).
    + eapply Forall_impl; [exact Hrest|]. intros [k v] [Hk Hbrace]. split; [exact Hk|].
      intros Hin. apply Hbrace. unfold drop_key in Hin. apply filter_In in Hin. tauto.
    + apply (incl_drop_key K). exact HR.
    + exact Hok'.
Qed.

End ExplicitFill.

Section MoodPrefix.

Lemma replace_all_after_prefix (items : list (string * string)) (pre t : string) :
  Forall (fun kv => key_shape kv.1 = true) items ->
  has_open_brace pre = false ->
  replace_all items (pre +:+ t) = pre +:+ replace_all items t.
Proof.
  intros Hitems Hpre. revert t.
  induction Hitems as [|[key value] items Hkey Hitems IH]; intros t; [reflexivity|].
  simpl. unfold PyStr.replace at 1. rewrite replace_literal by assumption. apply IH.
Qed.

Lemma replacement_keys_shaped (p : Profile) (hesitation : string) :
  Forall (fun kv => key_shape kv.1 = true) (replacements p hesitation).
Proof. unfold replacements. repeat constructor. Qed.

Lemma speech_prefix_brace_free (pre : string) :
  In pre speech_prefixes -> has_open_brace pre = false.
Proof. simpl. intros [<-|[<-|[<-|[<-|[]]]]]; reflexivity. Qed.

Lemma apply_mood_of_four (t mood : string) :
  In mood moods ->
  exists pre, In pre speech_prefixes
              /\ _apply_mood_modifiers (Template t) mood = Ok (Template (pre +:+ t)).
Proof.
  simpl. intros [<-|[<-|[<-|[<-|[]]]]]; eexists; (split; [|reflexivity]); simpl; tauto.
Qed.

(** The line of a known NPC: a speech prefix, then the filled template. *)
Lemma dialogue_text (self : Engine) (npc_name context : string) (h : History)
    (pc : option string) (p : Profile) (style t : string) :
  find_profile (npc_profiles self) npc_name = Some p ->
  _determine_interaction_style p context h = Ok style ->
  _select_template context style pc = Template t ->
  exists pre hesitation,
    In pre speech_prefixes /\ In hesitation hesitations
    /\ outcome (generate_dialogue npc_name context h pc) self
       = Ok (pre +:+ replace_all (replacements p hesitation) t).
Proof.
  intros Hfind Hstyle Htpl. unfold outcome, generate_dialogue.
  rewrite Hfind, Hstyle. unfold bind at 1, lift at 1. rewrite Htpl.
  destruct (determine_mood_returns p h pc self) as (mood & s1 & E1 & Hmood & _).
  unfold bind at 1. rewrite E1.
  destruct (apply_mood_of_four t mood Hmood) as (pre & Hpre & E2).
  rewrite E2. unfold bind at 1, lift at 1.
  destruct (fill_template_returns (pre +:+ t) p context pc s1)
    as (text & s2 & E3 & (hes & Hhes & ->) & _).
  rewrite E3. cbn [fst]. exists pre, hes. split; [exact Hpre|]. split; [exact Hhes|].
  rewrite replace_all_after_prefix;
    [reflexivity | apply replacement_keys_shaped | apply speech_prefix_brace_free, Hpre].
Qed.

End MoodPrefix.

Section StyleFacts.

Lemma style_label (p : Profile) (context : string) (h : History) (style : string) :
  _determine_interaction_style p context h = Ok style -> In style style_labels.
Proof.
  unfold _determine_interaction_style.
  destruct (String.eqb_spec context "greeting") as [->|Hg].
  { destruct (_ !! _) as [w|]; [|discriminate].
    destruct (String.eqb w "Good"); intros [= <-]; simpl; tauto. }
  destruct (String.eqb_spec context "quest_offer") as [->|Hq].
  { change (PyStr.str_in "urgency" (PyStr.lower "quest_offer")) with false. cbv iota.
    destruct (str_mem _ _); intros [= <-]; simpl; tauto. }
  destruct (String.eqb_spec context "response_to_player_choice") as [->|Hr].
  { destruct (negb _); intros [= <-]; simpl; tauto. }
  intros [= <-]. simpl. tauto.
Qed.

Lemma style_outside_greeting (p : Profile) (context : string) (h : History) :
  context <> "greeting" ->
  exists style, _determine_interaction_style p context h = Ok style.
Proof.
  intros Hg. unfold _determine_interaction_style.
  apply String.eqb_neq in Hg. rewrite Hg.
  destruct (String.eqb_spec context "quest_offer") as [->|Hq].
  { change (PyStr.str_in "urgency" (PyStr.lower "quest_offer")) with false. cbv iota.
    destruct (str_mem _ _); eauto. }
  destruct (String.eqb context "response_to_player_choice").
  { destruct (negb _); eauto. }
  eauto.
Qed.

Lemma style_outside_catalog (p : Profile) (context : string) (h : History)
    (pc : option string) :
  ~ In context catalog_contexts ->
  _determine_interaction_style p context h = Ok "friendly"
  /\ _select_template context "friendly" pc = Template fallback_template.
Proof.
  intros Hout.
  assert (Hg : String.eqb context "greeting" = false)
    by (apply String.eqb_neq; intros ->; apply Hout; simpl; tauto).
  assert (Hq : String.eqb context "quest_offer" = false)
    by (apply String.eqb_neq; intros ->; apply Hout; simpl; tauto).
  assert (Hr : String.eqb context "response_to_player_choice" = false)
    by (apply String.eqb_neq; intros ->; apply Hout; simpl; tauto).
  split.
  - unfold _determine_interaction_style. rewrite Hg, Hq, Hr. reflexivity.
  - unfold _select_template, prompt_templates. cbn [assoc]. rewrite Hg, Hq, Hr.
    destruct (String.eqb context "mood_modifiers"); reflexivity.
Qed.

(** In a catalog context the label the selector answers with names a
    template of that context. *)
Lemma style_in_catalog (p : Profile) (context : string) (h : History) (style : string) :
  In context catalog_contexts ->
  _determine_interaction_style p context h = Ok style ->
  exists styles t,
    assoc context prompt_templates = Some styles
    /\ assoc style styles = Some (Template t).
Proof.
  simpl. intros [<-|[<-|[<-|[]]]].
  - rewrite greeting_style_second_word. destruct (_ !! _) as [w|]; [|discriminate].
    destruct (String.eqb w "Good"); intros [= <-]; eexists _, _; split; reflexivity.
  - rewrite quest_offer_style_by_class.
    destruct (str_mem _ _); intros [= <-]; eexists _, _; split; reflexivity.
  - unfold _determine_interaction_style. simpl String.eqb. cbv iota.
    destruct (negb _); intros [= <-]; eexists _, _; split; reflexivity.
Qed.

Lemma selected_template_is_text (p : Profile) (context : string) (h : History)
    (pc : option string) (style : string) :
  _determine_interaction_style p context h = Ok style ->
  exists t, _select_template context style pc = Template t.
Proof.
  intros Hstyle. destruct (in_dec string_dec context catalog_contexts) as [Hin|Hout].
  - destruct (style_in_catalog p context h style Hin Hstyle) as (styles & t & Hc & Hs).
    exists t. apply (select_catalog_template context style t styles pc Hc Hs).
  - destruct (style_outside_catalog p context h pc Hout) as [E Hf].
    rewrite E in Hstyle. injection Hstyle as <-. eauto.
Qed.

End StyleFacts.

(** X7.  The style selector raises only in the greeting context; whatever
    it returns is one of six labels ("urgent" and the other five catalog
    styles are never chosen); in a context that has templates the label
    names one of them, and in any other context the label is "friendly" and
    the generic template is selected. *)
Theorem style_selection_labels
    (p : Profile) (context : string) (h : History) (pc : option string) :
  (context <> "greeting" ->
   exists style, _determine_interaction_style p context h = Ok style)
  /\ (forall style,
        _determine_interaction_style p context h = Ok style ->
        In style style_labels
        /\ (In context catalog_contexts ->
            exists styles t,
              assoc context prompt_templates = Some styles
              /\ assoc style styles = Some (Template t)))
  /\ (~ In context catalog_contexts ->
      _determine_interaction_style p context h = Ok "friendly"
      /\ _select_template context "friendly" pc = Template fallback_template).
Proof.
  split; [apply style_outside_greeting|]. split.
  - intros style Hstyle. split; [eapply style_label, Hstyle|].
    intros Hin. eapply style_in_catalog; eassumption.
  - apply style_outside_catalog.
Qed.

Lemma style_selection_labels_witness :
  _determine_interaction_style demo_elian "problem solving" None = Ok "friendly"
  /\ _select_template "problem solving" "friendly" None = Template fallback_template.
Proof.
  destruct (style_selection_labels demo_elian "problem solving" None None)
    as (_ & _ & Hout).
  apply Hout. simpl. intros [H|[H|[H|[]]]]; discriminate H.
Defined.

(** X8.  [generate_dialogue] raises nothing but [IndexError], and that
    exactly when the NPC is known, the context is "greeting" and the
    alignment has fewer than two words; in every other case it returns a
    line.  The dynamically typed paths of the renderer are never taken. *)
Theorem dialogue_outcomes
    (self : Engine) (npc_name context : string) (h : History) (pc : option string) :
  ((exists text, outcome (generate_dialogue npc_name context h pc) self = Ok text)
   \/ outcome (generate_dialogue npc_name context h pc) self = Raise IndexError)
  /\ (outcome (generate_dialogue npc_name context h pc) self = Raise IndexError
      <-> exists p,
            find_profile (npc_profiles self) npc_name = Some p
            /\ context = "greeting"
            /\ (length (alignment_words p) < 2)%nat).
Proof.
  destruct (find_profile (npc_profiles self) npc_name) as [p|] eqn:Hfind.
  - destruct (_determine_interaction_style p context h) as [style|e] eqn:Hstyle.
    + destruct (selected_template_is_text p context h pc style Hstyle) as [t Ht].
      destruct (dialogue_text self npc_name context h pc p style t Hfind Hstyle Ht)
        as (pre & hes & _ & _ & E).
      rewrite E. split; [left; eauto|]. split; [discriminate|].
      intros (p' & [= <-] & -> & Hlen). exfalso.
      rewrite greeting_style_second_word in Hstyle.
      rewrite (lookup_ge_None_2 (alignment_words p) 1) in Hstyle by lia. discriminate.
    + assert (Hg : context = "greeting").
      { destruct (string_dec context "greeting") as [E|Hne]; [exact E|].
        destruct (style_outside_greeting p context h Hne) as [s Hs]. congruence. }
      subst context. rewrite greeting_style_second_word in Hstyle.
      destruct (alignment_words p !! 1%nat) as [w|] eqn:Hw; [discriminate|].
      injection Hstyle as <-.
      assert (E : outcome (generate_dialogue npc_name "greeting" h pc) self
                  = Raise IndexError).
      { unfold outcome, generate_dialogue. rewrite Hfind.
        rewrite greeting_style_second_word. fold (alignment_words p).
        unfold bind, lift. rewrite Hw. reflexivity. }
      rewrite E. split; [right; reflexivity|]. split; [|reflexivity].
      intros _. exists p. repeat split. apply lookup_ge_None_1 in Hw. lia.
  - assert (E : outcome (generate_dialogue npc_name context h pc) self
                = Ok (not_found_in_system npc_name)).
    { unfold outcome, generate_dialogue. rewrite Hfind. reflexivity. }
    rewrite E. split; [left; eauto|]. split; [discriminate|].
    intros (p & Hp & _). discriminate.
Qed.

Section FixedTexts.

(** Discharges the side condition of [replace_all_explicit] for the
    [replacements] dictionary: each key is a placeholder key, and the value
    of a key some hole waits for has no opening brace. *)
Ltac replacements_side :=
  unfold replacements;
  repeat (constructor;
          [split;
           [simpl; tauto
           | cbn [fst snd];
             let H := fresh in
             intros H; simpl in H;
             repeat (destruct H as [H|H]; [try discriminate H|]);
             try contradiction; try reflexivity; try assumption
           ]|]);
  try constructor.

(** A template whose only placeholder has a fixed value renders to the same
    text for every profile. *)
Lemma fill_quest_mysterious (p : Profile) (hesitation : string) :
  replace_all (replacements p hesitation)
    "I have an... interesting proposal. {quest_description} There's more to this than meets the eye."
  = quest_mysterious_text.
Proof.
  change "I have an... interesting proposal. {quest_description} There's more to this than meets the eye."
    with (render_segments
            [Lit "I have an... interesting proposal. "; Hole "{quest_description}";
             Lit " There's more to this than meets the eye."]).
  rewrite (replace_all_explicit placeholder_keys eq_refl _ ["{quest_description}"]);
    [reflexivity | replacements_side | | reflexivity].
  intros k [<-|[]]. simpl. tauto.
Qed.

Lemma fill_quest_casual (p : Profile) (hesitation : string) :
  replace_all (replacements p hesitation)
    "If you have time, could you help me with something? {quest_description} No rush."
  = quest_casual_text.
Proof.
  change "If you have time, could you help me with something? {quest_description} No rush."
    with (render_segments
            [Lit "If you have time, could you help me with something? ";
             Hole "{quest_description}"; Lit " No rush."]).
  rewrite (replace_all_explicit placeholder_keys eq_refl _ ["{quest_description}"]);
    [reflexivity | replacements_side | | reflexivity].
  intros k [<-|[]]. simpl. tauto.
Qed.

Lemma fill_choice_neutral (p : Profile) (hesitation : string) :
  replace_all (replacements p hesitation) "I understand your decision. {neutral_response}"
  = choice_neutral_text.
Proof.
  change "I understand your decision. {neutral_response}"
    with (render_segments [Lit "I understand your decision. "; Hole "{neutral_response}"]).
  rewrite (replace_all_explicit placeholder_keys eq_refl _ ["{neutral_response}"]);
    [reflexivity | replacements_side | | reflexivity].
  intros k [<-|[]]. simpl. tauto.
Qed.

Lemma fill_choice_approval (p : Profile) (hesitation : string) :
  replace_all (replacements p hesitation) "Excellent choice! {approval_response}"
  = choice_approval_text.
Proof.
  change "Excellent choice! {approval_response}"
    with (render_segments [Lit "Excellent choice! "; Hole "{approval_response}"]).
  rewrite (replace_all_explicit placeholder_keys eq_refl _ ["{approval_response}"]);
    [reflexivity | replacements_side | | reflexivity].
  intros k [<-|[]]. simpl. tauto.
Qed.

Lemma fill_fallback (p : Profile) (hesitation : string) :
  has_open_brace (name p) = false ->
  replace_all (replacements p hesitation) fallback_template
  = "Hello, I'm " +:+ name p +:+ ". How can I help?".
Proof.
  intros Hn.
  change fallback_template
    with (render_segments [Lit "Hello, I'm "; Hole "{npc_name}"; Lit ". How can I help?"]).
  rewrite (replace_all_explicit placeholder_keys eq_refl _ ["{npc_name}"]);
    [reflexivity | replacements_side | | reflexivity].
  intros k [<-|[]]. simpl. tauto.
Qed.

Lemma fill_greeting_friendly (p : Profile) (hesitation : string) :
  has_open_brace (name p) = false ->
  has_open_brace (custom_intro p) = false ->
  replace_all (replacements p hesitation)
    "Hello! Great to see you here! I'm {npc_name}. {custom_intro}"
  = "Hello! Great to see you here! I'm " +:+ name p +:+ ". " +:+ custom_intro p.
Proof.
  intros Hn Hi.
  change "Hello! Great to see you here! I'm {npc_name}. {custom_intro}"
    with (render_segments
            [Lit "Hello! Great to see you here! I'm "; Hole "{npc_name}"; Lit ". ";
             Hole "{custom_intro}"]).
  rewrite (replace_all_explicit placeholder_keys eq_refl _ ["{npc_name}"; "{custom_intro}"]);
    [| replacements_side | | reflexivity].
  - unfold subst_all, replacements. simpl.
    fold (custom_intro p). rewrite append_empty_r. reflexivity.
  - intros k [<-|[<-|[]]]; simpl; tauto.
Qed.

Lemma fill_greeting_cautious (p : Profile) (hesitation : string) :
  has_open_brace (name p) = false ->
  has_open_brace (custom_intro p) = false ->
  In hesitation hesitations ->
  replace_all (replacements p hesitation)
    "Hmm... {hesitation} I'm {npc_name}. {custom_intro}"
  = "Hmm... " +:+ hesitation +:+ " I'm " +:+ name p +:+ ". " +:+ custom_intro p.
Proof.
  intros Hn Hi Hhes.
  assert (Hh : has_open_brace hesitation = false)
    by (simpl in Hhes; destruct Hhes as [<-|[<-|[<-|[]]]]; reflexivity).
  change "Hmm... {hesitation} I'm {npc_name}. {custom_intro}"
    with (render_segments
            [Lit "Hmm... "; Hole "{hesitation}"; Lit " I'm "; Hole "{npc_name}"; Lit ". ";
             Hole "{custom_intro}"]).
  rewrite (replace_all_explicit placeholder_keys eq_refl _
             ["{hesitation}"; "{npc_name}"; "{custom_intro}"]);
    [| replacements_side | | reflexivity].
  - unfold subst_all, replacements. simpl.
    fold (custom_intro p). rewrite append_empty_r. reflexivity.
  - intros k [<-|[<-|[<-|[]]]]; simpl; tauto.
Qed.

Lemma custom_intro_brace_free (p : Profile) :
  has_open_brace (alignment p) = false ->
  has_open_brace (backstory p) = false ->
  has_open_brace (custom_intro p) = false.
Proof.
  intros Ha Hb. unfold custom_intro.
  rewrite !has_open_brace_app, Ha, intro_snippet_brace_free by exact Hb. reflexivity.
Qed.

End FixedTexts.

(** X9.  In a context without templates of its own, a known NPC whose name
    has no opening brace answers with the generic line behind a speech
    prefix: "Hello, I'm <name>. How can I help?". *)
Theorem dialogue_outside_catalog
    (self : Engine) (npc_name context : string) (h : History) (pc : option string)
    (p : Profile) :
  find_profile (npc_profiles self) npc_name = Some p ->
  ~ In context catalog_contexts ->
  has_open_brace (name p) = false ->
  exists pre,
    In pre speech_prefixes
    /\ outcome (generate_dialogue npc_name context h pc) self
       = Ok (pre +:+ "Hello, I'm " +:+ name p +:+ ". How can I help?").
Proof.
  intros Hfind Hout Hn.
  destruct (style_outside_catalog p context h pc Hout) as [Hstyle Htpl].
  destruct (dialogue_text self npc_name context h pc p "friendly" fallback_template
              Hfind Hstyle Htpl) as (pre & hes & Hpre & _ & E).
  exists pre. split; [exact Hpre|]. rewrite E, fill_fallback by exact Hn. reflexivity.
Qed.

Lemma dialogue_outside_catalog_witness :
  exists pre,
    In pre speech_prefixes
    /\ outcome (generate_dialogue "Dr. Elian Thaumatec" "farewell" None None) demo_engine
       = Ok (pre +:+ "Hello, I'm " +:+ name demo_elian +:+ ". How can I help?").
Proof.
  apply (dialogue_outside_catalog demo_engine "Dr. Elian Thaumatec" "farewell" None None
           demo_elian).
  - reflexivity.
  - simpl. intros [H|[H|[H|[]]]]; discriminate H.
  - reflexivity.
Defined.

(** X10.  Quest offers and answers to a player choice are fixed texts behind
    a speech prefix, whatever the profile holds: a quest offer is the
    "mysterious" line for the two mystery classes and the "casual" line for
    any other class; the answer to a choice is the "approval" line when a
    non-empty history is passed and the "neutral" line otherwise. *)
Theorem quest_and_choice_lines
    (self : Engine) (npc_name : string) (h : History) (pc : option string) (p : Profile) :
  find_profile (npc_profiles self) npc_name = Some p ->
  (exists pre,
     In pre speech_prefixes
     /\ outcome (generate_dialogue npc_name "quest_offer" h pc) self
        = Ok (pre +:+ (if str_mem (class p) ["Techno-Mage Scientist"; "Sentient Alien Pet"]
                       then quest_mysterious_text else quest_casual_text)))
  /\ (exists pre,
        In pre speech_prefixes
        /\ outcome (generate_dialogue npc_name "response_to_player_choice" h pc) self
           = Ok (pre +:+ (if truthy h then choice_approval_text else choice_neutral_text))).
Proof.
  intros Hfind. split.
  - pose proof (quest_offer_style_by_class p h) as Hstyle.
    destruct (str_mem (class p) _).
    + destruct (dialogue_text self npc_name "quest_offer" h pc p "mysterious" _
                  Hfind Hstyle eq_refl) as (pre & hes & Hpre & _ & E).
      exists pre. split; [exact Hpre|]. rewrite E, fill_quest_mysterious. reflexivity.
    + destruct (dialogue_text self npc_name "quest_offer" h pc p "casual" _
                  Hfind Hstyle eq_refl) as (pre & hes & Hpre & _ & E).
      exists pre. split; [exact Hpre|]. rewrite E, fill_quest_casual. reflexivity.
  - assert (Hstyle : _determine_interaction_style p "response_to_player_choice" h
                     = Ok (if truthy h then "approval" else "neutral"))
      by (unfold _determine_interaction_style; simpl; destruct (truthy h); reflexivity).
    destruct (truthy h).
    + destruct (dialogue_text self npc_name "response_to_player_choice" h pc p "approval" _
                  Hfind Hstyle eq_refl) as (pre & hes & Hpre & _ & E).
      exists pre. split; [exact Hpre|]. rewrite E, fill_choice_approval. reflexivity.
    + destruct (dialogue_text self npc_name "response_to_player_choice" h pc p "neutral" _
                  Hfind Hstyle eq_refl) as (pre & hes & Hpre & _ & E).
      exists pre. split; [exact Hpre|]. rewrite E, fill_choice_neutral. reflexivity.
Qed.

Lemma quest_and_choice_lines_witness :
  exists pre,
    In pre speech_prefixes
    /\ outcome (generate_dialogue "Dr. Elian Thaumatec" "quest_offer" None None) demo_engine
       = Ok (pre +:+ quest_mysterious_text).
Proof.
  destruct (quest_and_choice_lines demo_engine "Dr. Elian Thaumatec" None None demo_elian
              eq_refl) as [Hquest _].
  exact Hquest.
Defined.

(** X11.  The greeting of a known NPC whose name, alignment and backstory
    have no opening brace is, behind a speech prefix, "Hello! Great to see
    you here! I'm <name>. I am <alignment> and <intro snippet>" when the
    second alignment word is "Good", and otherwise "Hmm... <hesitation> I'm
    <name>. I am <alignment> and <intro snippet>" with one of the three
    hesitation phrases. *)
Theorem greeting_lines
    (self : Engine) (npc_name : string) (h : History) (pc : option string)
    (p : Profile) (w : string) :
  find_profile (npc_profiles self) npc_name = Some p ->
  alignment_words p !! 1%nat = Some w ->
  has_open_brace (name p) = false ->
  has_open_brace (alignment p) = false ->
  has_open_brace (backstory p) = false ->
  exists pre hesitation,
    In pre speech_prefixes /\ In hesitation hesitations
    /\ outcome (generate_dialogue npc_name "greeting" h pc) self
       = Ok (pre +:+
             (if String.eqb w "Good"
              then "Hello! Great to see you here! I'm " +:+ name p +:+ ". " +:+ custom_intro p
              else "Hmm... " +:+ hesitation +:+ " I'm " +:+ name p +:+ ". "
                   +:+ custom_intro p)).
Proof.
  intros Hfind Hw Hn Ha Hb.
  pose proof (custom_intro_brace_free p Ha Hb) as Hi.
  pose proof (greeting_style_second_word p h) as Hstyle. rewrite Hw in Hstyle.
  destruct (String.eqb w "Good").
  - destruct (dialogue_text self npc_name "greeting" h pc p "friendly" _
                Hfind Hstyle eq_refl) as (pre & hes & Hpre & Hhes & E).
    exists pre, hes. split; [exact Hpre|]. split; [exact Hhes|].
    rewrite E, fill_greeting_friendly by assumption. reflexivity.
  - destruct (dialogue_text self npc_name "greeting" h pc p "cautious" _
                Hfind Hstyle eq_refl) as (pre & hes & Hpre & Hhes & E).
    exists pre, hes. split; [exact Hpre|]. split; [exact Hhes|].
    rewrite E, fill_greeting_cautious by assumption. reflexivity.
Qed.

Lemma greeting_lines_witness :
  exists pre hesitation,
    In pre speech_prefixes /\ In hesitation hesitations
    /\ outcome (generate_dialogue "Dr. Elian Thaumatec" "greeting" None None) demo_engine
       = Ok (pre +:+ "Hello! Great to see you here! I'm " +:+ name demo_elian +:+ ". "
             +:+ custom_intro demo_elian).
Proof.
  apply (greeting_lines demo_engine "Dr. Elian Thaumatec" None None demo_elian "Good");
    reflexivity.
Defined.

(** ** Response options *)

Section PoolShape.

Lemma build_options_shape (p : Profile) (context : string) (affinity : Z) (trust : Q) :
  alignment_words p <> [] \/ 40 <= affinity ->
  returns (build_options p context affinity trust)
    (fun pool => exists flavoured,
         pool = (flavoured ++ closing_options p context)%list
         /\ length flavoured = flavoured_count affinity trust).
Proof.
  intros Hal. unfold build_options, flavoured_count.
  eapply returns_bind with
    (P := fun l => length l = if 60 <? affinity then 1%nat else 0%nat).
  { destruct (60 <? affinity).
    - eapply returns_bind; [apply get_player_nickname_returns|].
      intros nick _. apply returns_ret. reflexivity.
    - apply returns_ret. reflexivity. }
  intros o1 H1.
  eapply returns_bind with
    (P := fun l => length l
                   = if (60 <? affinity) || (affinity <? 40) then 1%nat else 0%nat).
  { destruct (affinity <? 40) eqn:E.
    - assert (Hw : alignment_words p <> []) by (destruct Hal; [assumption | lia]).
      assert (H60 : (60 <? affinity) = false) by lia. rewrite H60 in *.
      unfold _generate_cautious_response. fold (alignment_words p).
      destruct (alignment_words p) as [|w ws]; [congruence|]. simpl lookup.
      cbv iota beta.
      eapply returns_bind with (P := fun _ => True).
      { intros self. unfold lift.
        destruct (String.eqb w "Lawful"); [|destruct (String.eqb w "Chaotic")];
          eexists _, self; repeat split. }
      intros c _. apply returns_ret. unfold append. rewrite length_app, H1. reflexivity.
    - apply returns_ret. rewrite orb_false_r. exact H1. }
  intros o2 H2. apply returns_ret. unfold append, closing_options, factual_option.
  destruct (negb (Qle_bool trust 70)).
  - eexists (o2 ++ [_])%list. rewrite <- !app_assoc. split; [reflexivity|].
    rewrite length_app, H2. simpl. lia.
  - exists o2. rewrite <- !app_assoc. split; [reflexivity|]. rewrite H2. lia.
Qed.

(** With neither metric out of the middle band the pool is the two closing
    candidates, built without a draw. *)
Lemma build_options_neutral (p : Profile) (context : string) (affinity : Z) (trust : Q)
    (self : Engine) :
  40 <= affinity <= 60 -> (trust <= 70)%Q ->
  build_options p context affinity trust self = (Ok (closing_options p context), self).
Proof.
  intros Ha Ht. unfold build_options.
  replace (60 <? affinity) with false by lia.
  replace (affinity <? 40) with false by lia.
  apply Qle_bool_iff in Ht. rewrite Ht. reflexivity.
Qed.

Lemma neutral_options (self : Engine) (npc_name context statement : string) (n : Z)
    (p : Profile) :
  find_profile (npc_profiles self) npc_name = Some p ->
  40 <= affinity (current (relationship_states self) npc_name) <= 60 ->
  (trust (current (relationship_states self) npc_name) <= 70)%Q ->
  2 <= n ->
  exists fill,
    outcome (generate_response_options npc_name context statement n) self
    = Ok (closing_options p context ++ fill)%list
    /\ Z.of_nat (length fill) = n - 2
    /\ Forall is_filler fill.
Proof.
  intros Hfind Ha Ht Hn. unfold outcome, generate_response_options.
  rewrite Hfind, relationship_read. cbn [fst snd].
  unfold bind. rewrite build_options_neutral by assumption.
  change (length (closing_options p context)) with 2%nat.
  replace (n <? Z.of_nat 2) with false by (symmetry; apply Z.ltb_ge; lia).
  destruct (fill_options_returns (Z.to_nat (n - Z.of_nat 2))
              (closing_options p context) self)
    as (l & s2 & E & (fill & -> & Hlen & Hall) & _).
  rewrite E. exists fill. split; [reflexivity|]. split; [|exact Hall].
  rewrite Hlen. lia.
Qed.

End PoolShape.

(** X12.  The candidate pool of a valid NPC is the relationship-flavoured
    candidates followed by the factual and the personality response, which
    always close it; there is one flavoured candidate when the affinity is
    above 60 or below 40 (never both), and one more when the trust is above
    70, so the pool has two to four entries. *)
Theorem pool_shape
    (self : Engine) (p : Profile) (context : string) (affinity : Z) (trust : Q) :
  alignment_words p <> [] \/ 40 <= affinity ->
  exists flavoured,
    outcome (build_options p context affinity trust) self
    = Ok (flavoured ++ closing_options p context)%list
    /\ length flavoured = flavoured_count affinity trust
    /\ (length flavoured <= 2)%nat.
Proof.
  intros Hal.
  destruct (build_options_shape p context affinity trust Hal self)
    as (pool & s1 & E & (flavoured & -> & Hlen) & _).
  exists flavoured. unfold outcome. rewrite E. split; [reflexivity|].
  split; [exact Hlen|]. rewrite Hlen. unfold flavoured_count.
  destruct (_ || _); destruct (negb _); simpl; lia.
Qed.

Lemma pool_shape_witness :
  exists flavoured,
    outcome (build_options demo_elian "problem solving" 75 (80 # 1)) demo_engine
    = Ok (flavoured ++ closing_options demo_elian "problem solving")%list
    /\ length flavoured = 2%nat
    /\ (length flavoured <= 2)%nat.
Proof.
  apply (pool_shape demo_engine demo_elian "problem solving" 75 (80 # 1)).
  right. lia.
Defined.

(** X13.  For a known NPC whose affinity is between 40 and 60 and whose
    trust is at most 70 (an NPC never updated is one), a request for two or
    more options returns the factual response, the personality response and
    then filler sentences only: nothing is sampled. *)
Theorem neutral_relationship_options
    (self : Engine) (npc_name context statement : string) (n : Z) (p : Profile) :
  find_profile (npc_profiles self) npc_name = Some p ->
  40 <= affinity (current (relationship_states self) npc_name) <= 60 ->
  (trust (current (relationship_states self) npc_name) <= 70)%Q ->
  2 <= n ->
  exists fill,
    outcome (generate_response_options npc_name context statement n) self
    = Ok (closing_options p context ++ fill)%list
    /\ Z.of_nat (length fill) = n - 2
    /\ Forall is_filler fill.
Proof. apply neutral_options. Qed.

Lemma neutral_relationship_options_witness :
  exists fill,
    outcome (generate_response_options "Dr. Elian Thaumatec" "problem solving"
               "We need to find a creative solution to this challenge" 3) demo_engine
    = Ok (closing_options demo_elian "problem solving" ++ fill)%list
    /\ Z.of_nat (length fill) = 3 - 2
    /\ Forall is_filler fill.
Proof.
  apply (neutral_relationship_options demo_engine "Dr. Elian Thaumatec" "problem solving"
           "We need to find a creative solution to this challenge" 3 demo_elian).
  - reflexivity.
  - vm_compute. split; discriminate.
  - vm_compute. discriminate.
  - lia.
Defined.

(** X14.  One update cannot change which candidates are offered: after the
    first [update_player_relationship] of an NPC that had no ledger entry,
    whatever the action, the options are still the factual response, the
    personality response and fillers. *)
Theorem first_update_keeps_options
    (self : Engine) (npc_name player_action update_context context statement : string)
    (n : Z) (p : Profile) :
  find_profile (npc_profiles self) npc_name = Some p ->
  relationship_states self !! npc_name = None ->
  2 <= n ->
  exists fill,
    outcome (generate_response_options npc_name context statement n)
            (update_player_relationship npc_name player_action update_context self).2
    = Ok (closing_options p context ++ fill)%list
    /\ Z.of_nat (length fill) = n - 2
    /\ Forall is_filler fill.
Proof.
  intros Hfind Hnone Hn.
  set (self' := (update_player_relationship npc_name player_action update_context self).2).
  assert (Hcur : current (relationship_states self') npc_name
                 = updated player_action update_context initial_relationship).
  { subst self'. simpl relationship_states. rewrite current_update_same.
    unfold current. rewrite Hnone. reflexivity. }
  pose proof (analyze_range player_action) as Hs.
  apply (neutral_options self' npc_name context statement n p).
  - exact Hfind.
  - rewrite Hcur. simpl. lia.
  - rewrite Hcur. simpl.
    assert (HsQ : (inject_Z (_analyze_player_action player_action) <= 10)%Q)
      by (change 10%Q with (inject_Z 10); rewrite <- Zle_Qle; lia).
    destruct (clampQ_spec (50 + inject_Z (_analyze_player_action player_action) * half))
      as [[H1 E]|[(H1 & H2 & E)|[H1 E]]]; rewrite E; unfold half in *; lra.
  - exact Hn.
Qed.

Lemma first_update_keeps_options_witness :
  exists fill,
    outcome (generate_response_options "Dr. Elian Thaumatec" "problem solving"
               "We need to find a creative solution to this challenge" 3)
            (update_player_relationship "Dr. Elian Thaumatec"
               "helping solve a difficult problem" "cooperative mission" demo_engine).2
    = Ok (closing_options demo_elian "problem solving" ++ fill)%list
    /\ Z.of_nat (length fill) = 3 - 2
    /\ Forall is_filler fill.
Proof.
  apply (first_update_keeps_options demo_engine "Dr. Elian Thaumatec"
           "helping solve a difficult problem" "cooperative mission" "problem solving"
           "We need to find a creative solution to this challenge" 3 demo_elian).
  - reflexivity.
  - reflexivity.
  - lia.
Defined.

Section OptionErrors.

Lemma build_options_blank (p : Profile) (context : string) (affinity : Z) (trust : Q)
    (self : Engine) :
  alignment_words p = [] -> affinity < 40 ->
  build_options p context affinity trust self = (Raise IndexError, self).
Proof.
  intros Hw Ha. unfold build_options.
  replace (60 <? affinity) with false by lia.
  replace (affinity <? 40) with true by lia.
  unfold _generate_cautious_response. fold (alignment_words p). rewrite Hw.
  reflexivity.
Qed.

Lemma options_of_known (self : Engine) (npc_name context statement : string) (n : Z)
    (p : Profile) :
  find_profile (npc_profiles self) npc_name = Some p ->
  alignment_words p <> [] \/ 40 <= affinity (current (relationship_states self) npc_name) ->
  (0 <= n ->
   exists options,
     outcome (generate_response_options npc_name context statement n) self = Ok options)
  /\ (n < 0 ->
      outcome (generate_response_options npc_name context statement n) self
      = Raise ValueError).
Proof.
  intros Hfind Hal. unfold outcome, generate_response_options.
  rewrite Hfind, relationship_read. cbn [fst snd].
  destruct (build_options_returns p context _
              (trust (current (relationship_states self) npc_name)) Hal self)
    as (pool & s1 & E & Hsize & _).
  unfold bind. rewrite E. unfold pool_size_ok in Hsize. split.
  - intros Hn. destruct (n <? Z.of_nat (length pool)) eqn:Hcmp.
    + apply Z.ltb_lt in Hcmp.
      destruct (sample_returns pool n (conj Hn (Z.lt_le_incl _ _ Hcmp)) s1)
        as (l & s2 & E2 & _). rewrite E2. eauto.
    + destruct (fill_options_returns (Z.to_nat (n - Z.of_nat (length pool))) pool s1)
        as (l & s2 & E2 & _). rewrite E2. eauto.
  - intros Hn. replace (n <? Z.of_nat (length pool)) with true by lia.
    unfold sample. replace (0 <=? n) with false by lia. reflexivity.
Qed.

End OptionErrors.

(** X15.  With a negative count and a known NPC the call never returns:
    the pool is larger than the count, so sampling is attempted and raises
    [ValueError], unless the alignment has no word and the affinity on
    record is below 40, where the [IndexError] of the cautious candidate
    comes first.  For an unknown NPC the same call returns the empty
    list. *)
Theorem negative_count
    (self : Engine) (npc_name context statement : string) (n : Z) :
  n < 0 ->
  (forall p,
     find_profile (npc_profiles self) npc_name = Some p ->
     outcome (generate_response_options npc_name context statement n) self
     = if match alignment_words p with [] => true | _ :: _ => false end
          && (affinity (current (relationship_states self) npc_name) <? 40)
       then Raise IndexError
       else Raise ValueError)
  /\ (find_profile (npc_profiles self) npc_name = None ->
      outcome (generate_response_options npc_name context statement n) self = Ok []).
Proof.
  intros Hn. split.
  - intros p Hfind.
    destruct (alignment_words p) as [|w ws] eqn:Hw; cbn [andb].
    + destruct (affinity (current (relationship_states self) npc_name) <? 40) eqn:Ha.
      * unfold outcome, generate_response_options.
        rewrite Hfind, relationship_read. cbn [fst snd]. unfold bind.
        rewrite build_options_blank by (assumption || lia). reflexivity.
      * apply (options_of_known self npc_name context statement n p Hfind); [|exact Hn].
        right. lia.
    + apply (options_of_known self npc_name context statement n p Hfind); [|exact Hn].
      left. rewrite Hw. discriminate.
  - intros Hfind. unfold outcome, generate_response_options. rewrite Hfind.
    replace (Z.to_nat n) with 0%nat by lia. reflexivity.
Qed.

Lemma negative_count_witness :
  outcome (generate_response_options "Dr. Elian Thaumatec" "greeting" "x" (-1)) demo_engine
  = Raise ValueError
  /\ outcome (generate_response_options "Ghost" "greeting" "x" (-1)) demo_engine = Ok [].
Proof.
  destruct (negative_count demo_engine "Dr. Elian Thaumatec" "greeting" "x" (-1))
    as [Hknown _]; [lia|].
  destruct (negative_count demo_engine "Ghost" "greeting" "x" (-1)) as [_ Hunknown]; [lia|].
  split.
  - apply (Hknown demo_elian). reflexivity.
  - apply Hunknown. reflexivity.
Defined.

(** X16.  For a known NPC [generate_response_options] raises [IndexError]
    exactly when the alignment has no word at all and the affinity on
    record is below 40: only the cautious candidate reads the first
    alignment word.  Such a profile is served until its affinity drops. *)
Theorem blank_alignment_fails_when_disliked
    (self : Engine) (npc_name context statement : string) (n : Z) (p : Profile) :
  find_profile (npc_profiles self) npc_name = Some p ->
  (outcome (generate_response_options npc_name context statement n) self
   = Raise IndexError
   <-> alignment_words p = []
       /\ affinity (current (relationship_states self) npc_name) < 40).
Proof.
  intros Hfind. split.
  - intros Hraise.
    destruct (alignment_words p) as [|w ws] eqn:Hw.
    + split; [reflexivity|].
      destruct (Z_lt_le_dec (affinity (current (relationship_states self) npc_name)) 40)
        as [Hlt|Hge]; [exact Hlt|]. exfalso.
      destruct (options_of_known self npc_name context statement n p Hfind
                  (or_intror Hge)) as [Hpos Hneg].
      destruct (Z_lt_le_dec n 0) as [Hn|Hn].
      * rewrite (Hneg Hn) in Hraise. discriminate.
      * destruct (Hpos Hn) as [l E]. rewrite E in Hraise. discriminate.
    + exfalso.
      assert (Hal : alignment_words p <> []) by (rewrite Hw; discriminate).
      destruct (options_of_known self npc_name context statement n p Hfind
                  (or_introl Hal)) as [Hpos Hneg].
      destruct (Z_lt_le_dec n 0) as [Hn|Hn].
      * rewrite (Hneg Hn) in Hraise. discriminate.
      * destruct (Hpos Hn) as [l E]. rewrite E in Hraise. discriminate.
  - intros [Hw Ha]. unfold outcome, generate_response_options.
    rewrite Hfind, relationship_read. cbn [fst snd].
    unfold bind. rewrite build_options_blank by assumption. reflexivity.
Qed.

Lemma blank_alignment_fails_when_disliked_witness :
  outcome (generate_response_options "Blip" "greeting" "x" 3)
          (session (calls_for "Blip" [demo_hostile; demo_hostile])
                   (new_engine [demo_blank] demo_rng)).2
  = Raise IndexError.
Proof.
  apply (blank_alignment_fails_when_disliked
           (session (calls_for "Blip" [demo_hostile; demo_hostile])
                    (new_engine [demo_blank] demo_rng)).2
           "Blip" "greeting" "x" 3 demo_blank).
  - reflexivity.
  - split; vm_compute; reflexivity.
Defined.

(** ** Intro snippet *)

Section Snippet.

Lemma split_on_piece (cur : list ascii) (a rest : string) :
  has_period a = false ->
  PyStr.split_on_aux "." cur (a +:+ String "." rest)
  = string_of_list_ascii (rev cur ++ list_ascii_of_string a)
      :: PyStr.split_on_aux "." [] rest.
Proof.
  revert cur. induction a as [|c a IH]; intros cur Ha.
  - simpl. rewrite app_nil_r. reflexivity.
  - simpl in Ha. apply orb_false_iff in Ha as [Hc Ha].
    rewrite append_cons. cbn [PyStr.split_on_aux]. rewrite Hc, IH by exact Ha.
    simpl. rewrite <- app_assoc. reflexivity.
Qed.

Lemma split_on_last (cur : list ascii) (a : string) :
  has_period a = false ->
  PyStr.split_on_aux "." cur a
  = [string_of_list_ascii (rev cur ++ list_ascii_of_string a)].
Proof.
  revert cur. induction a as [|c a IH]; intros cur Ha.
  - simpl. rewrite app_nil_r. reflexivity.
  - simpl in Ha. apply orb_false_iff in Ha as [Hc Ha].
    cbn [PyStr.split_on_aux]. rewrite Hc, IH by exact Ha.
    simpl. rewrite <- app_assoc. reflexivity.
Qed.

Lemma split_on_nonempty (sep : ascii) (cur : list ascii) (s : string) :
  PyStr.split_on_aux sep cur s <> [].
Proof.
  revert cur. induction s as [|c s IH]; intros cur; simpl; [discriminate|].
  destruct (Ascii.eqb c sep); [discriminate | apply IH].
Qed.

Lemma append_not_empty (a b : string) : b <> EmptyString -> a +:+ b <> EmptyString.
Proof. destruct a; [auto | discriminate]. Qed.

End Snippet.

(** X17.  The intro snippet always ends in a full stop.  It is the fixed
    sentence for an empty backstory; the text before the first full stop
    for a backstory with at most one full stop; and the second sentence,
    stripped of surrounding blanks, for a backstory with two or more full
    stops (so "A. B." introduces the NPC with "B."). *)
Theorem intro_snippet_cases (p : Profile) :
  (exists body, _generate_intro_snippet p = body +:+ ".")
  /\ (backstory p = EmptyString -> _generate_intro_snippet p = "I have a story to tell.")
  /\ (forall s1,
        backstory p = s1 -> s1 <> EmptyString -> has_period s1 = false ->
        _generate_intro_snippet p = s1 +:+ ".")
  /\ (forall s1 s2,
        backstory p = s1 +:+ "." +:+ s2 ->
        has_period s1 = false -> has_period s2 = false ->
        _generate_intro_snippet p = s1 +:+ ".")
  /\ (forall s1 s2 rest,
        backstory p = s1 +:+ "." +:+ s2 +:+ "." +:+ rest ->
        has_period s1 = false -> has_period s2 = false ->
        _generate_intro_snippet p = PyStr.strip s2 +:+ ".").
Proof.
  unfold _generate_intro_snippet. split; [|split; [|split; [|split]]].
  - destruct (negb _); [|exists "I have a story to tell"; reflexivity].
    destruct (2 <? _)%nat; eexists; reflexivity.
  - intros ->. reflexivity.
  - intros s1 -> Hne Hs1.
    apply String.eqb_neq in Hne. rewrite Hne. cbn [negb].
    unfold PyStr.split_on. rewrite split_on_last by exact Hs1.
    simpl. rewrite string_of_list_ascii_of_string. reflexivity.
  - intros s1 s2 -> Hs1 Hs2.
    assert (Hne : String.eqb (s1 +:+ "." +:+ s2) EmptyString = false)
      by (apply String.eqb_neq, append_not_empty; discriminate).
    rewrite Hne. cbn [negb]. unfold PyStr.split_on.
    change ("." +:+ s2) with (String "." s2).
    rewrite split_on_piece by exact Hs1. rewrite split_on_last by exact Hs2.
    simpl. rewrite string_of_list_ascii_of_string. reflexivity.
  - intros s1 s2 rest -> Hs1 Hs2.
    assert (Hne : String.eqb (s1 +:+ "." +:+ s2 +:+ "." +:+ rest) EmptyString = false)
      by (apply String.eqb_neq, append_not_empty; discriminate).
    rewrite Hne. cbn [negb]. unfold PyStr.split_on.
    change ("." +:+ s2 +:+ "." +:+ rest) with (String "." (s2 +:+ String "." rest)).
    rewrite !split_on_piece by assumption.
    pose proof (split_on_nonempty "." [] rest) as Hrest.
    destruct (PyStr.split_on_aux "." [] rest) as [|x xs]; [congruence|].
    simpl. rewrite string_of_list_ascii_of_string. reflexivity.
Qed.

Lemma intro_snippet_cases_witness :
  _generate_intro_snippet demo_elian
  = PyStr.strip " He studied the old machines" +:+ ".".
Proof.
  destruct (intro_snippet_cases demo_elian) as (_ & _ & _ & _ & Hsecond).
  apply (Hsecond "Born in a floating lab" " He studied the old machines" " Then he left.");
    reflexivity.
Defined.

(** ** Dominant trait *)

Section DominantTrait.

Lemma max_by_value_first (rest : list (string * Q)) :
  forall best : string * Q,
    exists before after,
      best :: rest = (before ++ max_by_value best rest :: after)%list
      /\ Forall (fun x => (snd x < snd (max_by_value best rest))%Q) before
      /\ Forall (fun x => (snd x <= snd (max_by_value best rest))%Q) after.
Proof.
  induction rest as [|x rest IH]; intros best.
  - exists [], []. simpl. repeat split; constructor.
  - simpl. destruct (Qle_bool (snd x) (snd best)) eqn:E; cbn [negb].
    + apply Qle_bool_iff in E.
      destruct (IH best) as (before & after & Heq & Hb & Ha).
      destruct before as [|b0 before].
      * simpl in Heq. injection Heq as Hm Hrest.
        exists [], (x :: rest). split; [simpl; rewrite <- Hm; reflexivity|].
        split; [constructor|]. constructor; [rewrite <- Hm; exact E|].
        rewrite Hrest at 1. exact Ha.
      * simpl in Heq. injection Heq as Hb0 Hrest. subst b0.
        exists (best :: x :: before), after.
        split; [simpl; rewrite Hrest at 1; reflexivity|]. split; [|exact Ha].
        inversion Hb as [|? ? Hbest Hb']; subst.
        constructor; [exact Hbest|]. constructor; [|exact Hb'].
        eapply Qle_lt_trans; eassumption.
    + assert (Hlt : (snd best < snd x)%Q).
      { apply Qnot_le_lt. intros H. apply Qle_bool_iff in H. congruence. }
      destruct (IH x) as (before & after & Heq & Hb & Ha).
      exists (best :: before), after.
      split; [simpl; rewrite Heq at 1; reflexivity|]. split; [|exact Ha].
      constructor; [|exact Hb].
      destruct before as [|b0 before].
      * simpl in Heq. injection Heq as Hm _. rewrite <- Hm. exact Hlt.
      * simpl in Heq. injection Heq as Hb0 _. subst b0.
        inversion Hb; subst. eapply Qlt_trans; eassumption.
Qed.

End DominantTrait.

Section FirstMaximum.

Lemma max_by_value_keeps (rest : list (string * Q)) (best : string * Q) :
  Forall (fun x => (snd x <= snd best)%Q) rest -> max_by_value best rest = best.
Proof.
  induction 1 as [|x rest Hx Hrest IH]; [reflexivity|].
  simpl. apply Qle_bool_iff in Hx. rewrite Hx. exact IH.
Qed.

Lemma max_by_value_reaches (mid after : list (string * Q)) (x : string * Q) :
  Forall (fun y => (snd y < snd x)%Q) mid ->
  Forall (fun y => (snd y <= snd x)%Q) after ->
  forall best, (snd best < snd x)%Q ->
    max_by_value best (mid ++ x :: after) = x.
Proof.
  intros Hmid Hafter.
  assert (Hnot : forall b : string * Q, (snd b < snd x)%Q -> Qle_bool (snd x) (snd b) = false).
  { intros b Hb. destruct (Qle_bool (snd x) (snd b)) eqn:E; [|reflexivity].
    apply Qle_bool_iff in E. exfalso. eapply Qlt_not_le; eassumption. }
  induction Hmid as [|y mid Hy Hmid IH]; intros best Hbest; simpl.
  - rewrite (Hnot best Hbest). apply max_by_value_keeps, Hafter.
  - apply IH. destruct (negb _); assumption.
Qed.

Lemma max_by_value_is_first_maximum (first : string * Q) (others : list (string * Q))
    (before after : list (string * Q)) (x : string * Q) :
  first :: others = (before ++ x :: after)%list ->
  Forall (fun y => (snd y < snd x)%Q) before ->
  Forall (fun y => (snd y <= snd x)%Q) after ->
  max_by_value first others = x.
Proof.
  intros Heq Hbefore Hafter. destruct before as [|b before].
  - simpl in Heq. injection Heq as -> ->. apply max_by_value_keeps, Hafter.
  - simpl in Heq. injection Heq as -> ->.
    inversion Hbefore as [|? ? Hb Hbefore']; subst.
    apply max_by_value_reaches; assumption.
Qed.

End FirstMaximum.

(** X18.  Mood and honest opinion go by the first trait of the largest
    weight: when a trait is listed with a weight that every earlier trait
    stays strictly below and no later trait exceeds, [_generate_honest_opinion]
    answers with the opinion of that trait and [_determine_mood] draws the
    mood as for that trait; a tie is won by the trait listed first.  Weights
    are compared by their exact values. *)
Theorem dominant_trait_is_first_maximum
    (p : Profile) (h : History) (pc : option string) (context : string)
    (before after : list (string * Q)) (trait_name : string) (weight : Q) :
  personality_traits p = (before ++ (trait_name, weight) :: after)%list ->
  Forall (fun x => (snd x < weight)%Q) before ->
  Forall (fun x => (snd x <= weight)%Q) after ->
  _generate_honest_opinion p context = opinion_of_trait trait_name
  /\ _determine_mood p h pc = mood_of_trait trait_name.
Proof.
  intros Htraits Hbefore Hafter.
  unfold _generate_honest_opinion, _determine_mood.
  destruct (personality_traits p) as [|first others] eqn:E.
  - destruct before; discriminate.
  - rewrite (max_by_value_is_first_maximum first others before after
               (trait_name, weight) Htraits Hbefore Hafter).
    split; reflexivity.
Qed.

Lemma dominant_trait_is_first_maximum_witness :
  _generate_honest_opinion demo_tie "problem solving" = opinion_of_trait "wisdom"
  /\ _determine_mood demo_tie None None = mood_of_trait "wisdom".
Proof.
  apply (dominant_trait_is_first_maximum demo_tie None None "problem solving"
           [("courage", 5 # 10)] [("optimism", 9 # 10)] "wisdom" (9 # 10)).
  - reflexivity.
  - repeat constructor.
  - repeat constructor. simpl. discriminate.
Defined.

(** ** Scorer and mood *)

Section CaseFolding.

Lemma lower_ascii_idempotent (c : ascii) :
  PyStr.lower_ascii (PyStr.lower_ascii c) = PyStr.lower_ascii c.
Proof.
  destruct c as [[] [] [] [] [] [] [] []]; vm_compute; reflexivity.
Qed.

Lemma lower_idempotent (s : string) : PyStr.lower (PyStr.lower s) = PyStr.lower s.
Proof.
  induction s as [|c s IH]; [reflexivity|].
  cbn [PyStr.lower]. rewrite lower_ascii_idempotent, IH. reflexivity.
Qed.

End CaseFolding.

(** X19.  The scorer ignores case: a keyword counts exactly when the action
    contains it in some mix of upper and lower case; two actions with the
    same lower-casing, an action and its own lower-casing among them, score
    the same; and every score is an even number between -10 and 10. *)
Theorem scorer_ignores_case (player_action : string) :
  (forall word,
     PyStr.str_in word (PyStr.lower player_action) = true
     <-> exists pre u post,
           player_action = pre +:+ u +:+ post /\ PyStr.lower u = word)
  /\ (forall other,
        PyStr.lower other = PyStr.lower player_action ->
        _analyze_player_action other = _analyze_player_action player_action)
  /\ _analyze_player_action (PyStr.lower player_action)
     = _analyze_player_action player_action
  /\ (exists k, -5 <= k <= 5 /\ _analyze_player_action player_action = 2 * k).
Proof.
  split; [intros word; apply keyword_occurs_ignoring_case|].
  split; [intros other E; unfold _analyze_player_action; rewrite E; reflexivity|].
  split; [unfold _analyze_player_action; rewrite lower_idempotent; reflexivity|].
  apply analyze_even.
Qed.

Lemma scorer_ignores_case_witness :
  _analyze_player_action "I WILL HELP AND PROTECT YOU"
  = _analyze_player_action "I will help and protect you".
Proof.
  destruct (scorer_ignores_case "I will help and protect you") as (_ & Hsame & _).
  apply Hsame. vm_compute. reflexivity.
Defined.

Section MoodDraws.

Lemma nth_mood (k : nat) (d : string) : (k < 4)%nat -> In (nth k moods d) moods.
Proof. intros Hk. apply nth_In. exact Hk. Qed.

Lemma pick_mood (threshold : N) (m : string) (self : Engine) :
  In m moods ->
  exists mood self' k,
    (let* b := random_lt threshold in if b then ret m else choice moods) self
    = (Ok mood, self')
    /\ In mood moods /\ (k = 1 \/ k = 2)%nat /\ after_draws k self self'.
Proof.
  intros Hm. unfold bind, random_lt, bind, draw, ret. cbn [fst snd].
  destruct (_ <? threshold)%N.
  - eexists _, _, 1%nat. split; [reflexivity|]. split; [exact Hm|].
    split; [left; reflexivity|]. repeat split. simpl. lia.
  - unfold choice, moods, bind, draw, ret. cbn [fst snd].
    eexists _, _, 2%nat. split; [reflexivity|]. split.
    + apply (nth_mood _ "happy").
      match goal with |- (N.to_nat (?r mod ?n) < 4)%nat =>
        pose proof (N.mod_lt r n) end.
      simpl length in *. lia.
    + split; [right; reflexivity|]. repeat split. simpl. lia.
Qed.

Lemma choose_mood (self : Engine) :
  exists mood self' k,
    choice moods self = (Ok mood, self')
    /\ In mood moods /\ (k = 1 \/ k = 2)%nat /\ after_draws k self self'.
Proof.
  unfold choice, moods, bind, draw, ret. cbn [fst snd].
  eexists _, _, 1%nat. split; [reflexivity|]. split.
  - apply (nth_mood _ "happy").
    match goal with |- (N.to_nat (?r mod ?n) < 4)%nat =>
      pose proof (N.mod_lt r n) end.
    simpl length in *. lia.
  - split; [left; reflexivity|]. repeat split. simpl. lia.
Qed.

End MoodDraws.

(** X20.  Mood selection cannot fail: for every profile it returns one of
    "happy", "sad", "angry" and "curious", takes one or two draws from the
    random source and changes nothing else of the engine. *)
Theorem mood_is_one_of_four
    (p : Profile) (h : History) (pc : option string) (self : Engine) :
  exists mood self' k,
    _determine_mood p h pc self = (Ok mood, self')
    /\ In mood moods
    /\ (k = 1 \/ k = 2)%nat
    /\ after_draws k self self'.
Proof.
  unfold _determine_mood. destruct (personality_traits p) as [|first others].
  - apply pick_mood. simpl. tauto.
  - repeat match goal with
           | |- context [if str_mem ?x ?l then _ else _] => destruct (str_mem x l)
           end;
      first [apply choose_mood | apply pick_mood; simpl; tauto].
Qed.

(** X21.  Every line [generate_dialogue] returns for a known NPC starts
    with the bracketed speech pattern of one of the four moods: the mood
    handed to the renderer is always a recognised one, so the branch that
    leaves a template without prefix is never taken from here. *)
Theorem dialogue_starts_with_speech_prefix
    (self : Engine) (npc_name context : string) (h : History) (pc : option string)
    (p : Profile) (text : string) :
  find_profile (npc_profiles self) npc_name = Some p ->
  outcome (generate_dialogue npc_name context h pc) self = Ok text ->
  exists pre rest, In pre speech_prefixes /\ text = pre +:+ rest.
Proof.
  intros Hfind Hout.
  destruct (_determine_interaction_style p context h) as [style|e] eqn:Hstyle.
  - destruct (selected_template_is_text p context h pc style Hstyle) as [t Ht].
    destruct (dialogue_text self npc_name context h pc p style t Hfind Hstyle Ht)
      as (pre & hes & Hpre & _ & E).
    rewrite E in Hout. injection Hout as <-. eauto.
  - unfold outcome, generate_dialogue in Hout. rewrite Hfind, Hstyle in Hout.
    discriminate.
Qed.

Lemma dialogue_starts_with_speech_prefix_witness :
  exists pre rest,
    In pre speech_prefixes
    /\ "[questioning and reflective] I understand your decision. Let's see where this leads us."
       = pre +:+ rest.
Proof.
  apply (dialogue_starts_with_speech_prefix
           {| npc_profiles := [demo_elian]; relationship_states := empty_ledger;
              random_source := {| tape := fun _ => 9007199254740993%N; cursor := 0 |} |}
           "Dr. Elian Thaumatec" "response_to_player_choice" None None demo_elian).
  - reflexivity.
  - vm_compute. reflexivity.
Defined.
